(** * orq web front-end: session sidebar, session DELETE route, new-session form

    A shallow embedding of four source files:

    - [src/components/session-sidebar.tsx]: [fetchSessions], the [useMemo]
      block of [SessionSidebar] (filter, sort, partition), the current
      session id, the session list area and [SessionListItem];
    - [src/app/api/sessions/[id]/route.ts]: the [DELETE] handler;
    - [src/app/session/new/page.tsx]: [fetchRepos], [handleSubmit], the
      spinner test, the options of the repository select and the submit
      button of [NewSessionPage];
    - the deploy script for the Modal app.

    Part I holds the definitions translated from the sources, one module
    per source file, preceded by the JavaScript primitives they use.
    Part II holds the vocabulary of the specification.  Part III holds the
    theorems. *)

From Stdlib Require Import ZArith String Ascii List Bool Lia Permutation Sorted.
Import ListNotations.

Local Open Scope string_scope.
Local Open Scope list_scope.
Local Open Scope Z_scope.

(* ===================================================================== *)
(** * Part I: the program *)
(* ===================================================================== *)

(** ** JavaScript primitives

    Strings are [string]s.  What the platform computes and the sources
    only call is not written out here: [String.prototype.toLowerCase]
    (the Unicode case mapping) is a parameter of the code that calls it,
    and a number of a parsed reply is kept by the text that ToString
    gives for it.  The timestamps and HTTP status codes that the
    modelled code computes with are integers: [Z]. *)
Module JS.

(** Values of parsed JSON, the [any] that [Response.json()] resolves to.
    A number is kept as the text that ToString gives for it ([0.5],
    [1e+21], [-7], [Infinity] for a literal beyond the range): that text
    determines the number up to the sign of zero, and the modelled code
    reads a number of a reply only through ToString and ToBoolean. *)
#[warnings="-register-all"]
Inductive JSON : Type :=
| JNull
| JBool (b : bool)
| JNumber (text : string)
| JString (s : string)
| JArray (items : list JSON)
| JObject (fields : list (string * JSON)).

(** A JavaScript value that may be [undefined]. *)
Definition Value := option JSON.

(** ToBoolean on strings: the empty string is falsy. *)
Definition truthy_string (s : string) : bool :=
  negb (s =? "")%string.

(** ToBoolean on numbers: zero is falsy. *)
Definition truthy_number (z : Z) : bool :=
  negb (z =? 0).

(** ToBoolean on a value: undefined, null, false, zero (of either sign,
    both printed as 0) and the empty string are falsy; JSON has no NaN. *)
Definition truthy (v : Value) : bool :=
  match v with
  | None => false
  | Some JNull => false
  | Some (JBool b) => b
  | Some (JNumber text) => negb (text =? "0")%string
  | Some (JString s) => truthy_string s
  | Some (JArray _) => true
  | Some (JObject _) => true
  end.

(** ToBoolean on a string that may be null or undefined. *)
Definition truthy_opt_string (a : option string) : bool :=
  match a with
  | Some s => truthy_string s
  | None => false
  end.

(** [a || b] where [a] is a string or null/undefined and [b] a string. *)
Definition or_string (a : option string) (b : string) : string :=
  match a with
  | Some s => if truthy_string s then s else b
  | None => b
  end.

(** [a || b] where [a] is a number or undefined and [b] a number. *)
Definition or_number (a : option Z) (b : Z) : Z :=
  match a with
  | Some z => if truthy_number z then z else b
  | None => b
  end.

(** [a || undefined] on a string: the string when it is truthy. *)
Definition or_undefined (a : string) : option string :=
  if truthy_string a then Some a else None.

(** [String.prototype.toLowerCase] on ASCII text: it maps the letters A-Z
    to a-z and leaves the other ASCII characters alone.  The code below takes
    the platform's mapping as a parameter; this one stands in for it where an
    example on ASCII text is run. *)
Definition asciiToLowerCaseChar (c : ascii) : ascii :=
  let n := nat_of_ascii c in
  if ((65 <=? n) && (n <=? 90))%nat then ascii_of_nat (n + 32) else c.

Fixpoint asciiToLowerCase (s : string) : string :=
  match s with
  | EmptyString => EmptyString
  | String c s' => String (asciiToLowerCaseChar c) (asciiToLowerCase s')
  end.

(** [s.startsWith(q)] *)
Fixpoint startsWith (s q : string) {struct q} : bool :=
  match q, s with
  | EmptyString, _ => true
  | String _ _, EmptyString => false
  | String c q', String d s' => Ascii.eqb c d && startsWith s' q'
  end.

(** [s.includes(q)]: [q] occurs in [s] at some position. *)
Fixpoint includes (s q : string) : bool :=
  startsWith s q ||
  match s with
  | EmptyString => false
  | String _ s' => includes s' q
  end.

(** [s.split(sep)] for a one-character separator: the pieces between
    the occurrences of [sep], never an empty array. *)
Fixpoint split (sep : ascii) (s : string) : list string :=
  match s with
  | EmptyString => [EmptyString]
  | String c s' =>
      if Ascii.eqb c sep then EmptyString :: split sep s'
      else match split sep s' with
           | [] => [String c EmptyString]
           | piece :: pieces => String c piece :: pieces
           end
  end.

(** [Array.prototype.sort(compareFn)].  ECMAScript requires the sort to be
    stable; for a consistent comparator the result is then determined: the
    elements in comparator order, equal ones in their input order.
    Insertion from the right computes it: an element moves behind the ones
    that the comparator puts strictly before it. *)
Section Sort.
Context {A : Type} (compareFn : A -> A -> Z).

Fixpoint insert (x : A) (l : list A) : list A :=
  match l with
  | [] => [x]
  | y :: l' => if 0 <? compareFn x y then y :: insert x l' else x :: l
  end.

Fixpoint sort (l : list A) : list A :=
  match l with
  | [] => []
  | x :: l' => insert x (sort l')
  end.

End Sort.

(** [obj[key]] on a parsed object: JSON.parse keeps the last of several
    members with one key. *)
Fixpoint lookup (key : string) (fields : list (string * JSON)) : Value :=
  match fields with
  | [] => None
  | (k, v) :: fields' =>
      match lookup key fields' with
      | Some v' => Some v'
      | None => if (k =? key)%string then Some v else None
      end
  end.

(** A thrown value. *)
Inductive Exn : Type :=
| Thrown (message : string).

(** How an awaited promise settles. *)
Inductive outcome (A : Type) : Type :=
| Resolved (a : A)
| Rejected (e : Exn).
Arguments Resolved {A} a.
Arguments Rejected {A} e.

(** ToString on parsed JSON, which can throw.  An array joins its
    elements with commas, printing null as nothing.  An object prints as
    [object Object] through the inherited method; when it has a member of its
    own named toString (never a function in parsed JSON), no conversion to a
    primitive is left and a TypeError is thrown. *)
Fixpoint JSON_toString (j : JSON) : outcome string :=
  match j with
  | JNull => Resolved "null"
  | JBool true => Resolved "true"
  | JBool false => Resolved "false"
  | JNumber text => Resolved text
  | JString s => Resolved s
  | JArray items =>
      let element x := match x with JNull => Resolved "" | _ => JSON_toString x end in
      (fix join (l : list JSON) : outcome string :=
         match l with
         | [] => Resolved ""
         | [x] => element x
         | x :: l' =>
             match element x with
             | Rejected e => Rejected e
             | Resolved first =>
                 match join l' with
                 | Rejected e => Rejected e
                 | Resolved rest => Resolved (first ++ "," ++ rest)
                 end
             end
         end) items
  | JObject fields =>
      match lookup "toString" fields with
      | Some _ => Rejected (Thrown "TypeError: Cannot convert object to primitive value")
      | None => Resolved "[object Object]"
      end
  end%string.

(** ToString on a value, as a template literal applies it. *)
Definition toString (v : Value) : outcome string :=
  match v with
  | None => Resolved "undefined"
  | Some j => JSON_toString j
  end.

(** [a || b] where [a] is any value and [b] is defined. *)
Definition or_value (a : Value) (b : JSON) : JSON :=
  match a with
  | Some j => if truthy a then j else b
  | None => b
  end.

(** [JSON.stringify] of an object literal whose members are strings or
    undefined: a member whose value is undefined is left out.  The result
    is kept as the JSON value whose text is sent, members in the order of
    the literal. *)
Fixpoint stringify_members (members : list (string * option string))
  : list (string * JSON) :=
  match members with
  | [] => []
  | (k, Some s) :: members' => (k, JString s) :: stringify_members members'
  | (_, None) :: members' => stringify_members members'
  end.

Definition JSON_stringify (members : list (string * option string)) : JSON :=
  JObject (stringify_members members).

(** The fetch API's [Response], as far as the handlers read it.  Reading
    the body ([text()], [json()]) is a promise of its own. *)
Record Response : Type := mkResponse {
  ok : bool;
  status : Z;
  text : outcome string;
  json : outcome JSON
}.

(** [data.key] on an [any]: a TypeError on null, undefined on the other
    values that are no objects. *)
Definition prop (data : JSON) (key : string) : outcome Value :=
  match data with
  | JNull => Rejected (Thrown "TypeError: Cannot read properties of null")
  | JObject fields => Resolved (lookup key fields)
  | _ => Resolved None
  end.

(** An async function body: it runs in a world [W] (the effects done so
    far and the mutable state it can reach), and either returns or throws.
    The world is kept when it throws: what was done before stays done. *)
Section AsyncMonad.
Context {W : Type}.

Definition Async (A : Type) : Type := W -> outcome A * W.

Definition ret {A} (a : A) : Async A :=
  fun w => (Resolved a, w).

Definition bind {A B} (m : Async A) (k : A -> Async B) : Async B :=
  fun w =>
    match m w with
    | (Resolved a, w') => k a w'
    | (Rejected e, w') => (Rejected e, w')
    end.

(** An effect on the world that cannot fail. *)
Definition effect (f : W -> W) : Async unit :=
  fun w => (Resolved tt, f w).

(** [await p] for a promise that settles as [p]. *)
Definition await {A} (p : outcome A) : Async A :=
  fun w => (p, w).

(** [try { body } catch (e) { handler e }] *)
Definition tryCatch {A} (body : Async A) (handler : Exn -> Async A) : Async A :=
  fun w =>
    match body w with
    | (Resolved a, w') => (Resolved a, w')
    | (Rejected e, w') => handler e w'
    end.

(** [try { body } finally { final }] *)
Definition tryFinally {A} (body : Async A) (final : Async unit) : Async A :=
  fun w =>
    let (r, w') := body w in
    match final w' with
    | (Resolved _, w'') => (r, w'')
    | (Rejected e, w'') => (Rejected e, w'')
    end.

End AsyncMonad.
Arguments Async W A : clear implicits.

Declare Scope async_scope.
Delimit Scope async_scope with async.
Notation "x <- m ;; k" := (bind m (fun x => k))
  (at level 61, m at next level, right associativity) : async_scope.
Notation "m ;; k" := (bind m (fun _ => k))
  (at level 61, right associativity) : async_scope.

End JS.

(** ** [src/components/session-sidebar.tsx] *)
Module SessionSidebar.
Import JS.

(** [interface SessionItem].  [updatedAt] is declared a number; the records
    are parsed from the reply of [GET /api/sessions] and both readers guard
    the field with [||], so a record without the field is covered as well:
    [None] stands for [undefined].  A record that has the field carries
    [Some z]. *)
Record SessionItem : Type := mkSessionItem {
  id : string;
  title : option string;
  repoOwner : string;
  repoName : string;
  status : string;
  createdAt : Z;
  updatedAt : option Z
}.

(** [`${session.repoOwner}/${session.repoName}`] *)
Definition repoInfo (session : SessionItem) : string :=
  (repoOwner session ++ "/" ++ repoName session)%string.

(** [session.updatedAt || session.createdAt] (lines 64, 65, 73 and 192) *)
Definition effectiveTimestamp (session : SessionItem) : Z :=
  or_number (updatedAt session) (createdAt session).

Section Filter.
(** [String.prototype.toLowerCase], the platform's case mapping: a
    parameter of the filter. *)
Variable toLowerCase : string -> string.

(** The callback of [sessions.filter] (lines 54-60). *)
Definition filterCallback (searchQuery : string) (session : SessionItem) : bool :=
  if negb (truthy_string searchQuery) then true
  else
    let query := toLowerCase searchQuery in
    let title := or_string (option_map toLowerCase (title session)) "" in
    let repo := toLowerCase (repoInfo session) in
    includes title query || includes repo query.

End Filter.

(** The comparator of [sort] (lines 63-67): [bTime - aTime]. *)
Definition compareFn (a b : SessionItem) : Z :=
  let aTime := effectiveTimestamp a in
  let bTime := effectiveTimestamp b in
  bTime - aTime.

Record Partition : Type := mkPartition {
  activeSessions : list SessionItem;
  inactiveSessions : list SessionItem
}.

Section Reconciler.
Variable toLowerCase : string -> string.
(** [isInactiveSession] is imported from [@/lib/time], which is not part of
    the modelled sources: it is a parameter of the reconciler. *)
Variable isInactiveSession : Z -> bool.

(** One iteration of the [for ... of sorted] loop (lines 72-79). *)
Definition pushSession (acc : Partition) (session : SessionItem) : Partition :=
  let timestamp := effectiveTimestamp session in
  if isInactiveSession timestamp
  then mkPartition (activeSessions acc) (inactiveSessions acc ++ [session])
  else mkPartition (activeSessions acc ++ [session]) (inactiveSessions acc).

(** The body of [useMemo] (lines 53-82). *)
Definition reconcile (sessions : list SessionItem) (searchQuery : string) : Partition :=
  let filtered := filter (filterCallback toLowerCase searchQuery) sessions in
  let sorted := sort compareFn filtered in
  fold_left pushSession sorted (mkPartition [] []).

End Reconciler.

(** [session.title || `${session.repoOwner}/${session.repoName}`] (line 194) *)
Definition displayTitle (session : SessionItem) : string :=
  or_string (title session) (repoInfo session).

(** The fixed collection of the spec's example; the fields the example
    leaves out are parameters. *)
Definition exampleUntitled (i st : string) (c : Z) : SessionItem :=
  mkSessionItem i None "a" "b" st c (Some 100).

Definition exampleTitled (i st : string) (c : Z) : SessionItem :=
  mkSessionItem i (Some "X") "c" "d" st c (Some 200).

(** [pathname?.startsWith("/session/") ? pathname.split("/")[2] : null]
    (line 84); [None] stands for null and undefined alike. *)
Definition currentSessionId (pathname : option string) : option string :=
  match pathname with
  | Some p => if startsWith p "/session/" then nth_error (split "/" p) 2 else None
  | None => None
  end.

(** [`/session/${session.id}`] (line 199) *)
Definition href (session : SessionItem) : string :=
  ("/session/" ++ id session)%string.

(** [session.id === currentSessionId] (lines 163 and 179) *)
Definition isActive (session : SessionItem) (current : option string) : bool :=
  match current with
  | Some c => (id session =? c)%string
  | None => false
  end.

(** The [useState] cells that [fetchSessions] writes (lines 27-28). *)
Record ListState : Type := mkListState {
  sessions : list SessionItem;
  loading : bool
}.

(** The parsed body of the reply to [GET /api/sessions], read as the
    component reads it: null, or a value with a [sessions] member that is a
    list of [SessionItem] or is missing (or falsy). *)
Inductive SessionsData : Type :=
| DataNull
| DataObject (list_ : option (list SessionItem)).

Record SessionsReply : Type := mkSessionsReply {
  ok : bool;
  json : outcome SessionsData
}.

(** [data.sessions] *)
Definition sessionsOf (data : SessionsData) : outcome (option (list SessionItem)) :=
  match data with
  | DataNull => Rejected (Thrown "TypeError: Cannot read properties of null")
  | DataObject l => Resolved l
  end.

Inductive FetchEvent : Type :=
| FetchSessions (url : string)
| ConsoleError (message : string) (error : Exn).

Record ListWorld : Type := mkListWorld {
  listState : ListState;
  events : list FetchEvent
}.

Definition setLoading (b : bool) : Async ListWorld unit :=
  effect (fun w => mkListWorld (mkListState (sessions (listState w)) b) (events w)).

Definition setSessions (l : list SessionItem) : Async ListWorld unit :=
  effect (fun w => mkListWorld (mkListState l (loading (listState w))) (events w)).

Definition record (ev : FetchEvent) : Async ListWorld unit :=
  effect (fun w => mkListWorld (listState w) (events w ++ [ev])).

(** [fetchSessions] (lines 37-50); [fetch] is how the request settles. *)
Definition fetchSessions (fetch : string -> outcome SessionsReply) : Async ListWorld unit :=
  (setLoading true ;;
   tryFinally
     (tryCatch
        (record (FetchSessions "/api/sessions") ;;
         res <- await (fetch "/api/sessions") ;;
         if ok res
         then
           data <- await (json res) ;;
           found <- await (sessionsOf data) ;;
           setSessions (match found with Some l => l | None => [] end)
         else ret tt)
        (fun error => record (ConsoleError "Failed to fetch sessions:" error)))
     (setLoading false))%async.

(** The component state after [fetchSessions], started from [st]. *)
Definition afterFetch (fetch : string -> outcome SessionsReply) (st : ListState) : ListWorld :=
  snd (fetchSessions fetch (mkListWorld st [])).

(** What [SessionListItem] renders for one session (lines 191-216): the
    target of the link, the title line, the relative time, the repository
    line, and whether the item carries the highlight. *)
Record ItemView : Type := mkItemView {
  link : string;
  heading : string;
  time : string;
  repo : string;
  highlighted : bool
}.

(** What the session list area renders (lines 147-186): the spinner, the
    message "No sessions yet", or the active items followed, when there are
    inactive sessions, by the divider and the inactive items. *)
Inductive ListView : Type :=
| Spinner
| NoSessionsYet
| Lists (active : list ItemView) (inactive : option (list ItemView)).

Section Render.
Variable toLowerCase : string -> string.
Variable isInactiveSession : Z -> bool.
(** [formatRelativeTime] is imported from [@/lib/time] like
    [isInactiveSession]: a parameter. *)
Variable formatRelativeTime : Z -> string.

Definition SessionListItem (session : SessionItem) (active : bool) : ItemView :=
  let timestamp := effectiveTimestamp session in
  mkItemView (href session) (displayTitle session) (formatRelativeTime timestamp)
    (repoInfo session) active.

Definition sessionList (st : ListState) (searchQuery : string) (pathname : option string)
  : ListView :=
  let out := reconcile toLowerCase isInactiveSession (sessions st) searchQuery in
  let current := currentSessionId pathname in
  let item session := SessionListItem session (isActive session current) in
  if loading st then Spinner
  else if (length (sessions st) =? 0)%nat then NoSessionsYet
  else
    Lists (map item (activeSessions out))
      (if (0 <? length (inactiveSessions out))%nat
       then Some (map item (inactiveSessions out))
       else None).

End Render.

End SessionSidebar.

(** ** [NextResponse] of next/server, as far as the route handler uses it *)
Module NextResponse.
Import JS.

Record t : Type := mk {
  status : Z;
  body : JSON
}.

(** A status that a response with a body may carry: within 200..599 and
    none of the null body statuses 204, 205 and 304 (101 and 103 are outside
    the range). *)
Definition acceptsBody (code : Z) : bool :=
  (200 <=? code) && (code <=? 599) &&
  negb ((code =? 204) || (code =? 205) || (code =? 304)).

(** [NextResponse.json(data, { status })]; the status is 200 when no init
    is given.  The constructor of [Response] throws a RangeError for a status
    outside 200..599 and, since the response has a body, a TypeError for a
    null body status. *)
Definition json (data : JSON) (init : option Z) : outcome t :=
  match init with
  | None => Resolved (mk 200 data)
  | Some code =>
      if (200 <=? code) && (code <=? 599)
      then
        if (code =? 204) || (code =? 205) || (code =? 304)
        then Rejected (Thrown "TypeError: Response with null body status cannot have body")
        else Resolved (mk code data)
      else Rejected (Thrown "RangeError: init[status] must be in the range of 200 to 599")
  end.

End NextResponse.

(** ** [src/app/api/sessions/[id]/route.ts] *)
Module DeleteRoute.
Import JS.
Local Open Scope async_scope.

(** The next-auth session; [accessToken] is the one field the handler reads. *)
Record AuthSession : Type := mkAuthSession {
  accessToken : option string
}.

(** What the handler does to the outside, in order. *)
Inductive Event : Type :=
| CallGetServerSession
| CallControlPlaneFetch (path : string) (method : string)
| ConsoleError (message : string) (error : Exn).

(** The collaborators of one request: how [getServerSession(authOptions)]
    settles, and how [controlPlaneFetch(path, { method })] settles. *)
Record Env : Type := mkEnv {
  getServerSession : outcome (option AuthSession);
  controlPlaneFetch : string -> string -> outcome Response
}.

Definition Handler (A : Type) : Type := Async (list Event) A.

Definition call {A} (ev : Event) (p : outcome A) : Handler A :=
  effect (fun log => log ++ [ev]) ;; await p.

Definition console_error (message : string) (error : Exn) : Handler unit :=
  effect (fun log => log ++ [ConsoleError message error]).

(** [session?.accessToken] *)
Definition accessTokenOf (session : option AuthSession) : option string :=
  match session with
  | Some s => accessToken s
  | None => None
  end.

(** [export async function DELETE(_request, { params })]; [id] is the
    [id] of the awaited [params].  [NextResponse.json] may throw, which
    [await] on its outcome stands for. *)
Definition DELETE (env : Env) (id : string) : Handler NextResponse.t :=
  session <- call CallGetServerSession (getServerSession env) ;;
  if negb (truthy_opt_string (accessTokenOf session))
  then await (NextResponse.json (JObject [("error", JString "Unauthorized")]) (Some 401))
  else
    let path := ("/sessions/" ++ id)%string in
    tryCatch
      (response <- call (CallControlPlaneFetch path "DELETE")
                        (controlPlaneFetch env path "DELETE") ;;
       if negb (ok response)
       then
         error <- await (text response) ;;
         await (NextResponse.json
                  (JObject [("error", JString (or_string (Some error) "Failed to delete session"))])
                  (Some (status response)))
       else
         data <- await (json response) ;;
         await (NextResponse.json data None))
      (fun error =>
         console_error "Failed to delete session:" error ;;
         await (NextResponse.json (JObject [("error", JString "Failed to delete session")])
                  (Some 500))).

(** A run of the handler from an empty log. *)
Definition run (env : Env) (id : string) : outcome NextResponse.t * list Event :=
  DELETE env id [].

(** The control-plane client was invoked. *)
Definition isControlPlaneCall (ev : Event) : bool :=
  match ev with
  | CallControlPlaneFetch _ _ => true
  | _ => false
  end.

End DeleteRoute.

(** ** [src/app/session/new/page.tsx] *)
Module NewSessionPage.
Import JS.
Local Open Scope async_scope.

(** The [useState] cells of [NewSessionPage] that [handleSubmit] reads or
    writes.  [error] is declared a string; [setError] also stores the
    [error] member of a reply as it comes. *)
Record State : Type := mkState {
  creating : bool;
  selectedRepo : string;
  title : string;
  selectedModel : string;
  error : JSON
}.

(** The initial values of the [useState] calls (lines 22-26). *)
Definition initialState : State :=
  mkState false "" "" "claude-haiku-4-5" (JString "").

(** [RequestInit] of the one [fetch] call; [body] is the value that
    [JSON.stringify] serialises. *)
Record RequestInit : Type := mkRequestInit {
  method : string;
  headers : list (string * string);
  body : JSON
}.

Inductive Event : Type :=
| PreventDefault
| Fetch (url : string) (init : RequestInit)
| RouterPush (href : string).

Record World : Type := mkWorld {
  state : State;
  log : list Event
}.

Definition Handler (A : Type) : Type := Async World A.

Definition emit (ev : Event) : Handler unit :=
  effect (fun w => mkWorld (state w) (log w ++ [ev])).

Definition setError (e : JSON) : Handler unit :=
  effect (fun w =>
    let s := state w in
    mkWorld (mkState (creating s) (selectedRepo s) (title s) (selectedModel s) e) (log w)).

Definition setCreating (b : bool) : Handler unit :=
  effect (fun w =>
    let s := state w in
    mkWorld (mkState b (selectedRepo s) (title s) (selectedModel s) (error s)) (log w)).

(** [setSelectedModel], [setSelectedRepo] and [setTitle], the [onChange]
    handlers of the form. *)
Definition setSelectedModel (m : string) (s : State) : State :=
  mkState (creating s) (selectedRepo s) (title s) m (error s).

Definition setSelectedRepo (r : string) (s : State) : State :=
  mkState (creating s) r (title s) (selectedModel s) (error s).

Definition setTitle (t : string) (s : State) : State :=
  mkState (creating s) (selectedRepo s) t (selectedModel s) (error s).

(** The object literal passed to [JSON.stringify] (lines 79-84), for the
    destructured [owner] and [name]. *)
Definition requestMembers (owner name : option string) (s : State)
  : list (string * option string) :=
  [ ("repoOwner", owner);
    ("repoName", name);
    ("title", or_undefined (title s));
    ("model", Some (selectedModel s)) ].

(** [const [owner, name] = selectedRepo.split("/")] and the request
    built from them (lines 73-85). *)
Definition request (s : State) : RequestInit :=
  let parts := split "/" (selectedRepo s) in
  let owner := nth_error parts 0 in
  let name := nth_error parts 1 in
  mkRequestInit "POST" [("Content-Type", "application/json")]
    (JSON_stringify (requestMembers owner name s)).

(** [handleSubmit] (lines 63-99).  [s] is the state of the render whose
    closure the handler is; [fetch] is how the request settles. *)
Definition handleSubmit (fetch : string -> RequestInit -> outcome Response) (s : State)
  : Handler unit :=
  emit PreventDefault ;;
  if negb (truthy_string (selectedRepo s))
  then setError (JString "Please select a repository")
  else
    setCreating true ;;
    setError (JString "") ;;
    tryFinally
      (tryCatch
         (emit (Fetch "/api/sessions" (request s)) ;;
          res <- await (fetch "/api/sessions" (request s)) ;;
          if ok res
          then
            data <- await (json res) ;;
            sessionId <- await (prop data "sessionId") ;;
            printed <- await (toString sessionId) ;;
            emit (RouterPush ("/session/" ++ printed))
          else
            data <- await (json res) ;;
            err <- await (prop data "error") ;;
            setError (or_value err (JString "Failed to create session")))
         (fun _error => setError (JString "Failed to create session")))
      (setCreating false).

(** Submitting the form in state [s]: the world after the handler. *)
Definition submit (fetch : string -> RequestInit -> outcome Response) (s : State) : World :=
  snd (handleSubmit fetch s (mkWorld s [])).

(** The requests among the events. *)
Fixpoint requests (evs : list Event) : list (string * RequestInit) :=
  match evs with
  | [] => []
  | Fetch url init :: evs' => (url, init) :: requests evs'
  | _ :: evs' => requests evs'
  end.

(** [disabled={creating || !selectedRepo}] of the submit button (line 257). *)
Definition submitDisabled (s : State) : bool :=
  creating s || negb (truthy_string (selectedRepo s)).

(** [interface Repo] (lines 8-15) *)
Record Repo : Type := mkRepo {
  id : Z;
  fullName : string;
  owner : string;
  name : string;
  description : option string;
  private : bool
}.

(** The [useState] cells that [fetchRepos] writes (lines 20-21). *)
Record RepoState : Type := mkRepoState {
  repos : list Repo;
  loading : bool
}.

(** The initial values of these cells: no repository, loading. *)
Definition initialRepoState : RepoState :=
  mkRepoState [] true.

(** The parsed body of the reply to [GET /api/repos], read as the page
    reads it: null, or a value with a [repos] member that is a list of [Repo]
    or is missing (or falsy). *)
Inductive ReposData : Type :=
| ReposNull
| ReposObject (list_ : option (list Repo)).

Record ReposReply : Type := mkReposReply {
  repos_ok : bool;
  repos_json : outcome ReposData
}.

(** [data.repos] *)
Definition reposOf (data : ReposData) : outcome (option (list Repo)) :=
  match data with
  | ReposNull => Rejected (Thrown "TypeError: Cannot read properties of null")
  | ReposObject l => Resolved l
  end.

Inductive RepoEvent : Type :=
| FetchRepos (url : string)
| ConsoleError (message : string) (error : Exn).

Record RepoWorld : Type := mkRepoWorld {
  repoState : RepoState;
  repoEvents : list RepoEvent
}.

Definition setLoading (b : bool) : Async RepoWorld unit :=
  effect (fun w => mkRepoWorld (mkRepoState (repos (repoState w)) b) (repoEvents w)).

Definition setRepos (l : list Repo) : Async RepoWorld unit :=
  effect (fun w => mkRepoWorld (mkRepoState l (loading (repoState w))) (repoEvents w)).

Definition record (ev : RepoEvent) : Async RepoWorld unit :=
  effect (fun w => mkRepoWorld (repoState w) (repoEvents w ++ [ev])).

(** [fetchRepos] (lines 48-61); [fetch] is how the request settles. *)
Definition fetchRepos (fetch : string -> outcome ReposReply) : Async RepoWorld unit :=
  setLoading true ;;
  tryFinally
    (tryCatch
       (record (FetchRepos "/api/repos") ;;
        res <- await (fetch "/api/repos") ;;
        if repos_ok res
        then
          data <- await (repos_json res) ;;
          found <- await (reposOf data) ;;
          setRepos (match found with Some l => l | None => [] end)
        else ret tt)
       (fun error => record (ConsoleError "Failed to fetch repos:" error)))
    (setLoading false).

(** [status === "loading" || loading] (line 101): the page shows the
    spinner instead of the form. *)
Definition showsSpinner (status : string) (st : RepoState) : bool :=
  (status =? "loading")%string || loading st.

(** The values of the repository select (lines 199-208): the placeholder,
    then the full name of each repository. *)
Definition repoOptions (st : RepoState) : list string :=
  "" :: map fullName (repos st).

End NewSessionPage.

(** ** The deploy script of [src/unnamed/part_000] (lines 1-57) *)
Module DeployScript.

(** What the script runs on: the environment ([None] for a variable that is
    not set), whether [cd] into a directory succeeds, and the exit status of
    [modal] for given arguments (127 when the command is not found). *)
Record Host : Type := mkHost {
  getenv : string -> option string;
  cd : string -> bool;
  modal : list string -> Z
}.

(** What the script does, in order: a line on standard output, a change of
    directory that succeeded, a run of [modal]. *)
Inductive Step : Type :=
| Echo (line : string)
| Cd (dir : string)
| Modal (args : list string).

(** A command either lets the script go on or ends it with an exit code. *)
Inductive flow (A : Type) : Type :=
| Next (a : A)
| Exit (code : Z).
Arguments Next {A} a.
Arguments Exit {A} code.

Definition Sh (A : Type) : Type := list Step -> flow A * list Step.

Definition pure {A} (a : A) : Sh A :=
  fun t => (Next a, t).

Definition andThen {A B} (m : Sh A) (k : A -> Sh B) : Sh B :=
  fun t =>
    match m t with
    | (Next a, t') => k a t'
    | (Exit code, t') => (Exit code, t')
    end.

Declare Scope sh_scope.
Delimit Scope sh_scope with sh.
Notation "x <- m ;; k" := (andThen m (fun x => k))
  (at level 61, m at next level, right associativity) : sh_scope.
Notation "m ;; k" := (andThen m (fun _ => k))
  (at level 61, right associativity) : sh_scope.
Local Open Scope sh_scope.

(** [exit code] *)
Definition exit {A} (code : Z) : Sh A :=
  fun t => (Exit code, t).

(** [echo line] *)
Definition echo (line : string) : Sh unit :=
  fun t => (Next tt, t ++ [Echo line]).

(** The expansion of a variable under [set -u]: bash ends the script with
    status 1 when the variable is not set. *)
Definition expand (h : Host) (var : string) : Sh string :=
  match getenv h var with
  | Some v => pure v
  | None => exit 1
  end.

(** The expansion with an empty default, which [set -u] lets pass. *)
Definition expandOrEmpty (h : Host) (var : string) : string :=
  match getenv h var with
  | Some v => v
  | None => ""
  end.

(** [-z s] *)
Definition isEmpty (s : string) : bool :=
  (s =? "")%string.

(** [modal args || { echo "Error: Modal deployment failed for app"; exit 1; }] *)
Definition modalOrFail (h : Host) (args : list string) : Sh unit :=
  fun t =>
    if modal h args =? 0
    then (Next tt, t ++ [Modal args])
    else
      (app <- expand h "APP_NAME" ;;
       echo ("Error: Modal deployment failed for " ++ app) ;;
       exit 1) (t ++ [Modal args]).

(** The script, line by line. *)
Definition script (h : Host) : Sh unit :=
  (* export PATH with the local bin directory in front: bash gives PATH a
     value at startup when the environment has none, HOME it does not *)
  _home <- expand h "HOME" ;;
  app <- expand h "APP_NAME" ;;
  echo ("Deploying Modal app: " ++ app) ;;
  path <- expand h "DEPLOY_PATH" ;;
  echo ("Deploy path: " ++ path) ;;
  module <- expand h "DEPLOY_MODULE" ;;
  echo ("Deploy module: " ++ module) ;;
  (if isEmpty (expandOrEmpty h "MODAL_TOKEN_ID")
   then echo "Error: MODAL_TOKEN_ID environment variable is not set" ;; exit 1
   else pure tt) ;;
  (if isEmpty (expandOrEmpty h "MODAL_TOKEN_SECRET")
   then echo "Error: MODAL_TOKEN_SECRET environment variable is not set" ;; exit 1
   else pure tt) ;;
  (fun t =>
     if cd h path
     then (Next tt, t ++ [Cd path])
     else (echo ("Error: Failed to change directory to " ++ path) ;; exit 1) t) ;;
  (if (module =? "deploy")%string
   then modalOrFail h ["deploy"; "deploy.py"]
   else if (module =? "src")%string
   then modalOrFail h ["deploy"; "-m"; "src"]
   else modalOrFail h ["deploy"; module]) ;;
  echo ("Modal app " ++ app ++ " deployed successfully").

(** A run of the script: its exit code and what it did. *)
Definition deploy (h : Host) : Z * list Step :=
  match script h [] with
  | (Next _, t) => (0, t)
  | (Exit code, t) => (code, t)
  end.

End DeployScript.

(* ===================================================================== *)
(** * Part II: the vocabulary of the specification *)
(* ===================================================================== *)

(** ** Pieces of a string around a separator *)
Module SpecStrings.

(** The text before the first [sep], all of it when there is none. *)
Fixpoint beforeFirst (sep : ascii) (s : string) : string :=
  match s with
  | EmptyString => EmptyString
  | String c s' => if Ascii.eqb c sep then EmptyString else String c (beforeFirst sep s')
  end.

(** The text after the first [sep], if there is one. *)
Fixpoint afterFirst (sep : ascii) (s : string) : option string :=
  match s with
  | EmptyString => None
  | String c s' => if Ascii.eqb c sep then Some s' else afterFirst sep s'
  end.

(** [sep] does not occur in [s]. *)
Fixpoint free_of (sep : ascii) (s : string) : bool :=
  match s with
  | EmptyString => true
  | String c s' => negb (Ascii.eqb c sep) && free_of sep s'
  end.

End SpecStrings.

(** ** The session list reconciler *)
Module SpecSidebar.
Import JS SessionSidebar.

(** [q] is a case-insensitive substring of [t]: lowercased, it occurs in
    the lowercased [t], for the platform's case mapping [toLowerCase]. *)
Definition caseInsensitiveSubstring (toLowerCase : string -> string) (q t : string)
  : Prop :=
  exists pre post, toLowerCase t = (pre ++ toLowerCase q ++ post)%string.

(** The filter predicate as the spec words it: the query is empty, or it
    matches the title, or it matches the owner/name string. *)
Definition matchesQuery (toLowerCase : string -> string) (q : string)
  (session : SessionItem) : Prop :=
  q = "" \/
  (exists t, title session = Some t /\ caseInsensitiveSubstring toLowerCase q t) \/
  caseInsensitiveSubstring toLowerCase q (repoOwner session ++ "/" ++ repoName session).

(** The effective timestamp as the spec words it: updatedAt if present,
    else createdAt. *)
Definition specEffectiveTimestamp (session : SessionItem) : Z :=
  match updatedAt session with
  | Some t => t
  | None => createdAt session
  end.

(** Descending order of a timestamp: no later element is newer. *)
Definition newestFirst (timestamp : SessionItem -> Z) (a b : SessionItem) : Prop :=
  timestamp b <= timestamp a.

Definition SessionItem_eq_dec (a b : SessionItem) : {a = b} + {a <> b}.
Proof.
  decide equality;
    try apply string_dec; try apply Z.eq_dec;
    decide equality; try apply string_dec; apply Z.eq_dec.
Defined.

(** The two classes of the partition loop. *)
Definition isStale (isInactiveSession : Z -> bool) (session : SessionItem) : bool :=
  isInactiveSession (effectiveTimestamp session).

Definition isFresh (isInactiveSession : Z -> bool) (session : SessionItem) : bool :=
  negb (isInactiveSession (effectiveTimestamp session)).

(** Modelled from the spec: [isInactiveSession] of [@/lib/time] is not among
    the sources.  The spec calls a session inactive when its effective
    timestamp is older than a fixed staleness threshold: its age, counted
    from the current time [now], exceeds [threshold]. *)
Definition specIsInactiveSession (now threshold : Z) (timestamp : Z) : bool :=
  threshold <? now - timestamp.

(** The items of a view, top to bottom. *)
Definition items (v : ListView) : list ItemView :=
  match v with
  | Lists active (Some inactive) => active ++ inactive
  | Lists active None => active
  | _ => []
  end.

(** The list that [fetchSessions] stores for a [sessions] member:
    [data.sessions || []]. *)
Definition stored (found : option (list SessionItem)) : list SessionItem :=
  match found with
  | Some l => l
  | None => []
  end.

(** The sessions the reconciler shows, active first. *)
Definition shown (toLowerCase : string -> string) (isInactiveSession : Z -> bool)
  (l : list SessionItem) (q : string) : list SessionItem :=
  activeSessions (reconcile toLowerCase isInactiveSession l q) ++
  inactiveSessions (reconcile toLowerCase isInactiveSession l q).

End SpecSidebar.

(** ** The DELETE handler *)
Module SpecDelete.
Import JS.

(** The response [NextResponse.json({ error: message }, { status: code })]. *)
Definition errorResponse (code : Z) (message : string) : NextResponse.t :=
  NextResponse.mk code (JObject [("error", JString message)]).

(** The path of the control-plane call for session [id]. *)
Definition sessionPath (id : string) : string :=
  ("/sessions/" ++ id)%string.

End SpecDelete.

(** ** The session creation form *)
Module SpecForm.
Import JS SpecStrings NewSessionPage.

(** The members of a JSON object, none for the other values. *)
Definition members (j : JSON) : list (string * JSON) :=
  match j with
  | JObject fields => fields
  | _ => []
  end.

(** The request whose body has the given members. *)
Definition postOf (fields : list (string * JSON)) : string * RequestInit :=
  ("/api/sessions",
   mkRequestInit "POST" [("Content-Type", "application/json")] (JObject fields)).

(** The spec's split: owner is the text before the first slash, name is
    the text after it. *)
Definition specOwner (selected : string) : string :=
  beforeFirst "/" selected.

Definition specName (selected : string) : option string :=
  afterFirst "/" selected.

(** The members of the body as the spec words them: repoOwner and
    repoName from the spec's split, the optional title, the model. *)
Definition specMembers (s : State) : list (string * JSON) :=
  [("repoOwner", JString (specOwner (selectedRepo s)))] ++
  match specName (selectedRepo s) with
  | Some name => [("repoName", JString name)]
  | None => []
  end ++
  (if (title s =? "")%string then [] else [("title", JString (title s))]) ++
  [("model", JString (selectedModel s))].

(** The form after a submission that went out: idle again, the inputs of
    [s] kept, [err] in the error cell. *)
Definition idleWith (s : State) (err : JSON) : State :=
  mkState false (selectedRepo s) (title s) (selectedModel s) err.

(** The events every submission that passes validation starts with. *)
Definition sent (s : State) : list Event :=
  [PreventDefault; Fetch "/api/sessions" (request s)].

Definition genericError : JSON :=
  JString "Failed to create session".

(** An event is a navigation. *)
Definition isNavigation (ev : Event) : bool :=
  match ev with
  | RouterPush _ => true
  | _ => false
  end.

(** A repository whose full name is its owner and its name joined by one
    slash, as the code host names repositories. *)
Definition wellNamed (r : Repo) : Prop :=
  fullName r = (owner r ++ "/" ++ name r)%string /\
  free_of "/" (owner r) = true /\
  free_of "/" (name r) = true.

(** The list that [fetchRepos] stores for a [repos] member: [data.repos || []]. *)
Definition storedRepos (found : option (list Repo)) : list Repo :=
  match found with
  | Some l => l
  | None => []
  end.

End SpecForm.

(** ** The deploy script *)
Module SpecDeploy.
Import DeployScript.

(** The three lines the script prints first. *)
Definition banner (app path module : string) : list Step :=
  [Echo ("Deploying Modal app: " ++ app);
   Echo ("Deploy path: " ++ path);
   Echo ("Deploy module: " ++ module)].

(** The line the script prints last when the deployment went through. *)
Definition successLine (app : string) : Step :=
  Echo ("Modal app " ++ app ++ " deployed successfully").

(** A step that touches nothing: a line of output. *)
Definition isEcho (step : Step) : bool :=
  match step with
  | Echo _ => true
  | _ => false
  end.

Definition isModal (step : Step) : bool :=
  match step with
  | Modal _ => true
  | _ => false
  end.

End SpecDeploy.

(* ===================================================================== *)
(** * Part III: theorems *)
(* ===================================================================== *)

(** ** Facts about the JavaScript primitives *)
Module JSFacts.
Import JS SpecStrings.

Lemma truthy_string_true (s : string) : truthy_string s = true <-> s <> "".
Proof.
  unfold truthy_string.
  destruct (String.eqb_spec s ""); simpl; split; congruence.
Qed.

Lemma truthy_string_false (s : string) : truthy_string s = false <-> s = "".
Proof.
  unfold truthy_string.
  destruct (String.eqb_spec s ""); simpl; split; congruence.
Qed.

Lemma asciiToLowerCase_empty (s : string) : asciiToLowerCase s = "" <-> s = "".
Proof.
  destruct s; simpl; split; congruence.
Qed.

Lemma asciiToLowerCase_app (s t : string) :
  asciiToLowerCase (s ++ t) = (asciiToLowerCase s ++ asciiToLowerCase t)%string.
Proof.
  induction s as [|c s IH]; simpl; [reflexivity | now rewrite IH].
Qed.

(** [startsWith] decides "is a prefix of". *)
Lemma startsWith_spec (s q : string) :
  startsWith s q = true <-> exists post, s = (q ++ post)%string.
Proof.
  revert s. induction q as [|c q IH]; intros s; simpl.
  - split; [intros _; now exists s | reflexivity].
  - destruct s as [|d s].
    + split; [discriminate | intros [post H]; discriminate].
    + rewrite andb_true_iff, IH. split.
      * intros [Hc [post ->]]. apply Ascii.eqb_eq in Hc. subst d. now exists post.
      * intros [post H]. injection H as -> ->. split.
        -- apply Ascii.eqb_refl.
        -- now exists post.
Qed.

(** [includes] decides "occurs somewhere in". *)
Lemma includes_spec (s q : string) :
  includes s q = true <-> exists pre post, s = (pre ++ q ++ post)%string.
Proof.
  induction s as [|c s IH].
  - cbn [includes]. rewrite orb_false_r, startsWith_spec. split.
    + intros [post H]. now exists "", post.
    + intros [pre [post H]]. destruct pre; [now exists post | discriminate].
  - cbn [includes]. rewrite orb_true_iff, startsWith_spec, IH. split.
    + intros [[post H] | [pre [post H]]].
      * now exists "", post.
      * exists (String c pre), post. simpl. now rewrite H.
    + intros [pre [post H]]. destruct pre as [|d pre].
      * left. now exists post.
      * right. simpl in H. injection H as _ H. now exists pre, post.
Qed.

Lemma includes_empty_query (s : string) : includes s "" = true.
Proof.
  apply includes_spec. now exists "", s.
Qed.

Lemma includes_in_empty (q : string) : includes "" q = true <-> q = "".
Proof.
  destruct q; simpl; split; congruence.
Qed.

(** *** The stable sort *)
Section SortFacts.
Context {A : Type} (key : A -> Z).

(** The comparator [(a, b) => key b - key a]: larger keys first. *)
Let byKeyDesc (a b : A) : Z := key b - key a.
Let descending (a b : A) : Prop := key b <= key a.

Lemma insert_perm (cmp : A -> A -> Z) (x : A) (l : list A) :
  Permutation (insert cmp x l) (x :: l).
Proof.
  induction l as [|y l IH]; simpl; [reflexivity|].
  destruct (0 <? cmp x y); [|reflexivity].
  rewrite IH. apply perm_swap.
Qed.

Lemma sort_perm (cmp : A -> A -> Z) (l : list A) :
  Permutation (sort cmp l) l.
Proof.
  induction l as [|x l IH]; simpl; [reflexivity|].
  rewrite insert_perm. now constructor.
Qed.

Lemma insert_descending (x : A) (l : list A) :
  StronglySorted descending l -> StronglySorted descending (insert byKeyDesc x l).
Proof.
  induction 1 as [|y l Hs IH Hy]; simpl.
  - repeat constructor.
  - unfold byKeyDesc at 1. destruct (Z.ltb_spec 0 (key y - key x)) as [Hlt|Hge].
    + constructor; [exact IH|].
      apply Forall_forall. intros z Hz.
      apply (Permutation_in _ (insert_perm byKeyDesc x l)) in Hz.
      destruct Hz as [<- | Hz]; [unfold descending; lia|].
      rewrite Forall_forall in Hy. now apply Hy.
    + constructor; [now constructor|].
      constructor; [unfold descending; lia|].
      eapply Forall_impl; [|exact Hy].
      unfold descending. intros; lia.
Qed.

Lemma sort_descending (l : list A) :
  StronglySorted descending (sort byKeyDesc l).
Proof.
  induction l as [|x l IH]; simpl; [constructor | now apply insert_descending].
Qed.

(** Stability: the elements with one key keep their input order. *)
Lemma insert_stable (k : Z) (x : A) (l : list A) :
  filter (fun a => key a =? k) (insert byKeyDesc x l) =
  filter (fun a => key a =? k) (x :: l).
Proof.
  induction l as [|y l IH]; [reflexivity|].
  cbn [insert]. unfold byKeyDesc at 1.
  destruct (Z.ltb_spec 0 (key y - key x)) as [Hlt|Hge]; [|reflexivity].
  cbn [filter] in *. rewrite IH.
  destruct (Z.eqb_spec (key y) k), (Z.eqb_spec (key x) k); try reflexivity.
  lia.
Qed.

Lemma sort_stable (k : Z) (l : list A) :
  filter (fun a => key a =? k) (sort byKeyDesc l) = filter (fun a => key a =? k) l.
Proof.
  induction l as [|x l IH]; [reflexivity|].
  cbn [sort]. rewrite insert_stable. cbn [filter]. now rewrite IH.
Qed.

Lemma StronglySorted_filter (R : A -> A -> Prop) (f : A -> bool) (l : list A) :
  StronglySorted R l -> StronglySorted R (filter f l).
Proof.
  induction 1 as [|x l Hs IH Hx]; simpl; [constructor|].
  destruct (f x); [|exact IH].
  constructor; [exact IH|].
  apply Forall_forall. intros y Hy. apply filter_In in Hy.
  rewrite Forall_forall in Hx. now apply Hx.
Qed.

End SortFacts.

(** *** [split] on a one-character separator *)

Lemma split_cons (sep : ascii) (s : string) :
  split sep s =
  beforeFirst sep s ::
  match afterFirst sep s with
  | Some rest => split sep rest
  | None => []
  end.
Proof.
  induction s as [|c s IH]; simpl; [reflexivity|].
  destruct (Ascii.eqb c sep); [reflexivity|].
  now rewrite IH.
Qed.

Lemma split_first (sep : ascii) (s : string) :
  nth_error (split sep s) 0 = Some (beforeFirst sep s).
Proof.
  now rewrite split_cons.
Qed.

Lemma split_second (sep : ascii) (s : string) :
  nth_error (split sep s) 1 = option_map (beforeFirst sep) (afterFirst sep s).
Proof.
  rewrite split_cons. simpl.
  destruct (afterFirst sep s) as [rest|]; [|reflexivity].
  now rewrite split_cons.
Qed.

Lemma beforeFirst_free (sep : ascii) (s : string) :
  free_of sep s = true -> beforeFirst sep s = s.
Proof.
  induction s as [|c s IH]; simpl; [reflexivity|].
  destruct (Ascii.eqb c sep); simpl; [discriminate|].
  intros H. now rewrite IH.
Qed.

Lemma beforeFirst_app (sep : ascii) (o n : string) :
  free_of sep o = true -> beforeFirst sep (o ++ String sep n) = o.
Proof.
  induction o as [|c o IH]; simpl.
  - now rewrite Ascii.eqb_refl.
  - destruct (Ascii.eqb c sep); simpl; [discriminate|].
    intros H. now rewrite IH.
Qed.

Lemma afterFirst_app (sep : ascii) (o n : string) :
  free_of sep o = true -> afterFirst sep (o ++ String sep n) = Some n.
Proof.
  induction o as [|c o IH]; simpl.
  - now rewrite Ascii.eqb_refl.
  - destruct (Ascii.eqb c sep); simpl; [discriminate|].
    exact IH.
Qed.

Lemma string_app_assoc (a b c : string) : ((a ++ b) ++ c = a ++ b ++ c)%string.
Proof.
  induction a as [|x a IH]; cbn; [reflexivity | now rewrite IH].
Qed.

Lemma string_app_empty (a b : string) : (a ++ b)%string = "" -> a = "" /\ b = "".
Proof.
  destruct a; cbn; [now split | discriminate].
Qed.

End JSFacts.

(** ** The session list reconciler *)
Module SidebarFacts.
Import JS SpecStrings JSFacts SessionSidebar SpecSidebar.

(** *** The filter *)

Lemma filterCallback_spec
  (toLowerCase : string -> string) (q : string) (session : SessionItem) :
  filterCallback toLowerCase q session = true <-> matchesQuery toLowerCase q session.
Proof.
  unfold filterCallback, matchesQuery, caseInsensitiveSubstring, repoInfo.
  assert (Htitle : forall t, or_string (Some (toLowerCase t)) "" = toLowerCase t).
  { intros t. unfold or_string.
    destruct (truthy_string (toLowerCase t)) eqn:Ht; [reflexivity|].
    apply truthy_string_false in Ht. now rewrite Ht. }
  destruct (truthy_string q) eqn:Hq; simpl.
  - apply truthy_string_true in Hq.
    rewrite orb_true_iff, !includes_spec. split.
    + intros [H | H]; [|now right; right].
      destruct (title session) as [t|]; cbn [option_map] in H.
      * right; left. exists t. split; [reflexivity|]. now rewrite Htitle in H.
      * right; right. cbn [or_string] in H. destruct H as [pre [post H]].
        symmetry in H. apply string_app_empty in H. destruct H as [_ H].
        apply string_app_empty in H. destruct H as [H _].
        exists "", (toLowerCase (repoOwner session ++ "/" ++ repoName session)%string).
        now rewrite H.
    + intros [H | [[t [Ht H]] | H]]; [congruence | | now right].
      left. rewrite Ht. cbn [option_map]. now rewrite Htitle.
  - apply truthy_string_false in Hq. split; [now left | reflexivity].
Qed.

(** *** The partition loop *)
Section Loop.
Variable toLowerCase : string -> string.
Variable isInactiveSession : Z -> bool.

Lemma loop_from (l : list SessionItem) (acc : Partition) :
  fold_left (pushSession isInactiveSession) l acc =
  mkPartition (activeSessions acc ++ filter (isFresh isInactiveSession) l)
              (inactiveSessions acc ++ filter (isStale isInactiveSession) l).
Proof.
  revert acc. induction l as [|s l IH]; intros [act inact]; simpl.
  - now rewrite !app_nil_r.
  - rewrite IH. unfold pushSession, isFresh, isStale.
    destruct (isInactiveSession (effectiveTimestamp s)); simpl;
      now rewrite <- app_assoc.
Qed.

(** The two output lists are the fresh and the stale elements of the
    sorted list, each in the order of the sorted list. *)
Lemma reconcile_unfold (sessions : list SessionItem) (q : string) :
  reconcile toLowerCase isInactiveSession sessions q =
  let sorted := sort compareFn (filter (filterCallback toLowerCase q) sessions) in
  mkPartition (filter (isFresh isInactiveSession) sorted)
              (filter (isStale isInactiveSession) sorted).
Proof.
  unfold reconcile. now rewrite loop_from.
Qed.

Lemma fresh_stale_perm (l : list SessionItem) :
  Permutation (filter (isFresh isInactiveSession) l ++
               filter (isStale isInactiveSession) l) l.
Proof.
  induction l as [|s l IH]; simpl; [reflexivity|].
  unfold isFresh, isStale in *.
  destruct (isInactiveSession (effectiveTimestamp s)); simpl.
  - symmetry. apply Permutation_cons_app. now symmetry.
  - now constructor.
Qed.

Lemma output_perm (sessions : list SessionItem) (q : string) :
  let out := reconcile toLowerCase isInactiveSession sessions q in
  Permutation (activeSessions out ++ inactiveSessions out)
              (filter (filterCallback toLowerCase q) sessions).
Proof.
  cbv zeta. rewrite reconcile_unfold. cbv zeta. cbn [activeSessions inactiveSessions].
  rewrite fresh_stale_perm. apply sort_perm.
Qed.

End Loop.

Lemma count_occ_filter (f : SessionItem -> bool) (l : list SessionItem) (s : SessionItem) :
  count_occ SessionItem_eq_dec (filter f l) s =
  if f s then count_occ SessionItem_eq_dec l s else 0%nat.
Proof.
  induction l as [|x l IH]; simpl; [now destruct (f s)|].
  destruct (f x) eqn:Hx; simpl; destruct (SessionItem_eq_dec x s) as [->|Hne];
    rewrite IH; try rewrite Hx; reflexivity.
Qed.

Lemma effectiveTimestamp_cases (session : SessionItem) :
  effectiveTimestamp session =
  match updatedAt session with
  | Some t => if t =? 0 then createdAt session else t
  | None => createdAt session
  end.
Proof.
  unfold effectiveTimestamp, or_number, truthy_number.
  destruct (updatedAt session) as [t|]; [|reflexivity].
  now destruct (t =? 0).
Qed.

(** C1: for every session collection and query, the sessions of the two
    output lists together are exactly the sessions of the input that match
    the query (empty query, or case-insensitive substring of the title, or
    of owner/name): as a set, and with multiplicities, so that no session
    is gained or dropped. *)
Theorem reconcile_output_set
  (toLowerCase : string -> string)
  (isInactiveSession : Z -> bool) (sessions : list SessionItem) (q : string) :
  let out := reconcile toLowerCase isInactiveSession sessions q in
  let shown := activeSessions out ++ inactiveSessions out in
  (forall s, In s shown <-> In s sessions /\ matchesQuery toLowerCase q s) /\
  (forall s, matchesQuery toLowerCase q s ->
     count_occ SessionItem_eq_dec shown s = count_occ SessionItem_eq_dec sessions s) /\
  (forall s, ~ matchesQuery toLowerCase q s -> count_occ SessionItem_eq_dec shown s = 0%nat).
Proof.
  cbv zeta.
  pose proof (output_perm toLowerCase isInactiveSession sessions q) as Hperm. cbv zeta in Hperm.
  split; [|split].
  - intros s. rewrite <- filterCallback_spec, <- filter_In. split.
    + apply Permutation_in. exact Hperm.
    + apply Permutation_in. symmetry. exact Hperm.
  - intros s Hs. apply filterCallback_spec in Hs.
    rewrite (Permutation_count_occ SessionItem_eq_dec) in Hperm.
    rewrite Hperm, count_occ_filter, Hs. reflexivity.
  - intros s Hs.
    rewrite (Permutation_count_occ SessionItem_eq_dec) in Hperm.
    rewrite Hperm, count_occ_filter.
    destruct (filterCallback toLowerCase q s) eqn:Hf; [|reflexivity].
    apply filterCallback_spec in Hf. contradiction.
Qed.

(** Ties keep their input order: for every timestamp, the sessions that
    carry it come out of the sort in the order of the filtered input. *)
Lemma sorted_ties_keep_input_order
  (toLowerCase : string -> string) (sessions : list SessionItem) (q : string) (k : Z) :
  filter (fun s => effectiveTimestamp s =? k)
         (sort compareFn (filter (filterCallback toLowerCase q) sessions)) =
  filter (fun s => effectiveTimestamp s =? k) (filter (filterCallback toLowerCase q) sessions).
Proof.
  apply (sort_stable effectiveTimestamp).
Qed.

(** C2 (amended): both output lists are in descending order of the
    effective timestamp; the effective timestamp is updatedAt when that is
    present and not zero, and createdAt otherwise; the active list is the
    sorted list restricted to the sessions whose effective timestamp
    [isInactiveSession] does not classify as inactive, the inactive list is
    the sorted list restricted to the others, so each keeps the sorted
    order and membership depends on the effective timestamp alone. *)
Theorem reconcile_sorted_partition
  (toLowerCase : string -> string)
  (isInactiveSession : Z -> bool) (sessions : list SessionItem) (q : string) :
  let out := reconcile toLowerCase isInactiveSession sessions q in
  let sorted := sort compareFn (filter (filterCallback toLowerCase q) sessions) in
  StronglySorted (newestFirst effectiveTimestamp) (activeSessions out) /\
  StronglySorted (newestFirst effectiveTimestamp) (inactiveSessions out) /\
  (forall s t, updatedAt s = Some t -> t <> 0 -> effectiveTimestamp s = t) /\
  (forall s, updatedAt s = None \/ updatedAt s = Some 0 ->
     effectiveTimestamp s = createdAt s) /\
  StronglySorted (newestFirst effectiveTimestamp) sorted /\
  activeSessions out =
    filter (fun s => negb (isInactiveSession (effectiveTimestamp s))) sorted /\
  inactiveSessions out =
    filter (fun s => isInactiveSession (effectiveTimestamp s)) sorted /\
  (forall s1 s2, In s1 sorted -> In s2 sorted ->
     effectiveTimestamp s1 = effectiveTimestamp s2 ->
     (In s1 (activeSessions out) <-> In s2 (activeSessions out))).
Proof.
  cbv zeta. rewrite reconcile_unfold. cbv zeta. cbn [activeSessions inactiveSessions].
  assert (Hsorted : StronglySorted (newestFirst effectiveTimestamp)
                      (sort compareFn (filter (filterCallback toLowerCase q) sessions)))
    by apply (sort_descending effectiveTimestamp).
  split; [now apply StronglySorted_filter|].
  split; [now apply StronglySorted_filter|].
  split.
  { intros s t Ht Hnz. rewrite effectiveTimestamp_cases, Ht.
    destruct (Z.eqb_spec t 0); [contradiction | reflexivity]. }
  split.
  { intros s [H | H]; rewrite effectiveTimestamp_cases, H; reflexivity. }
  split; [exact Hsorted|].
  split; [reflexivity|]. split; [reflexivity|].
  intros s1 s2 Hin1 Hin2 Heq. unfold isFresh. rewrite !filter_In, Heq. tauto.
Qed.

(** C2, as stated, fails: a session whose updatedAt is present and zero
    is ranked by its createdAt, so the output (here with both sessions
    fresh) is not in descending order of "updatedAt if present else
    createdAt". *)
Lemma zero_updatedAt_counterexample :
  let a := mkSessionItem "s1" None "o" "r" "running" 1000 (Some 0) in
  let b := mkSessionItem "s2" None "o" "r" "running" 1 (Some 500) in
  let out := reconcile asciiToLowerCase (specIsInactiveSession 1000 604800000) [b; a] "" in
  specEffectiveTimestamp a = 0 /\
  effectiveTimestamp a = 1000 /\
  activeSessions out = [a; b] /\
  ~ Sorted (newestFirst specEffectiveTimestamp) (activeSessions out).
Proof.
  cbv zeta. repeat split.
  intros H. cbv in H.
  inversion H as [|x l Hl Hhd]; subst.
  inversion Hhd as [|y l' Hxy]; subst.
  apply Hxy. reflexivity.
Qed.


(** C8 (amended): on the example collection and the empty query the
    sorted sequence is [X, a/b]; when [isInactiveSession] classifies
    neither 200 nor 100 as inactive, the active list is [X, a/b] and the
    inactive list is empty; the session without a title is displayed as
    a/b. *)
Theorem example_order_and_title
  (toLowerCase : string -> string)
  (isInactiveSession : Z -> bool) (i1 st1 i2 st2 : string) (c1 c2 : Z)
  (H100 : isInactiveSession 100 = false) (H200 : isInactiveSession 200 = false) :
  let untitled := exampleUntitled i1 st1 c1 in
  let titled := exampleTitled i2 st2 c2 in
  sort compareFn (filter (filterCallback toLowerCase "") [untitled; titled]) = [titled; untitled] /\
  reconcile toLowerCase isInactiveSession [untitled; titled] "" = mkPartition [titled; untitled] [] /\
  displayTitle untitled = "a/b".
Proof.
  cbv zeta. split; [reflexivity|]. split; [|reflexivity].
  rewrite reconcile_unfold. cbv zeta.
  change (sort compareFn (filter (filterCallback toLowerCase "")
            [exampleUntitled i1 st1 c1; exampleTitled i2 st2 c2]))
    with [exampleTitled i2 st2 c2; exampleUntitled i1 st1 c1].
  unfold isFresh, isStale. cbn [filter].
  change (effectiveTimestamp (exampleTitled i2 st2 c2)) with 200.
  change (effectiveTimestamp (exampleUntitled i1 st1 c1)) with 100.
  rewrite H100, H200. reflexivity.
Qed.

(** C8 at a clock of 250 and a threshold of 1000: both sessions are fresh. *)
Lemma example_order_and_title_witness :
  specIsInactiveSession 250 1000 100 = false /\
  specIsInactiveSession 250 1000 200 = false /\
  reconcile asciiToLowerCase (specIsInactiveSession 250 1000)
    [exampleUntitled "s1" "running" 100; exampleTitled "s2" "running" 200] "" =
  mkPartition [exampleTitled "s2" "running" 200; exampleUntitled "s1" "running" 100] [] /\
  displayTitle (exampleUntitled "s1" "running" 100) = "a/b".
Proof.
  split; [reflexivity|]. split; [reflexivity|].
  apply (example_order_and_title asciiToLowerCase (specIsInactiveSession 250 1000)
           "s1" "running" "s2" "running" 100 200); reflexivity.
Defined.

(** C8, as stated, fails once the clock has moved on: a week-long
    threshold and a current time in 2026 put both sessions in the inactive
    list and leave the active list empty. *)
Lemma example_stale_counterexample :
  let untitled := exampleUntitled "s1" "running" 100 in
  let titled := exampleTitled "s2" "running" 200 in
  let out := reconcile asciiToLowerCase (specIsInactiveSession 1767225600000 604800000)
               [untitled; titled] "" in
  activeSessions out = [] /\
  inactiveSessions out = [titled; untitled] /\
  activeSessions out <> [titled; untitled].
Proof.
  cbv zeta. repeat split. discriminate.
Qed.

(** *** The highlighted session *)

Lemma free_of_beforeFirst (sep : ascii) (s : string) :
  free_of sep (beforeFirst sep s) = true.
Proof.
  induction s as [|c s IH]; [reflexivity|]. cbn [beforeFirst].
  destruct (Ascii.eqb c sep) eqn:Hc; [reflexivity|].
  cbn [free_of]. now rewrite Hc, IH.
Qed.

Lemma currentSessionId_under_session (rest : string) :
  currentSessionId (Some ("/session/" ++ rest)%string) = Some (beforeFirst "/" rest).
Proof.
  unfold currentSessionId.
  replace (startsWith ("/session/" ++ rest) "/session/") with true by reflexivity.
  rewrite split_cons. cbn [append beforeFirst afterFirst Ascii.eqb Bool.eqb].
  rewrite split_cons. cbn [append beforeFirst afterFirst Ascii.eqb Bool.eqb nth_error].
  now rewrite (split_cons "/" rest).
Qed.

(** X16: the current session id is the path segment after /session/:
    a pathname yields an id exactly when it starts with /session/, and the id
    is then the text up to the next slash (all of the rest when there is
    none, the empty string for /session/ itself); any other pathname, and no
    pathname, yields none. *)
Theorem currentSessionId_spec (pathname : option string) (current : string) :
  currentSessionId pathname = Some current <->
  exists rest,
    pathname = Some ("/session/" ++ rest)%string /\ current = beforeFirst "/" rest.
Proof.
  split.
  - destruct pathname as [p|]; [|discriminate]. unfold currentSessionId.
    destruct (startsWith p "/session/") eqn:Hp; [|discriminate].
    apply startsWith_spec in Hp. destruct Hp as [rest ->].
    intros H. exists rest. split; [reflexivity|].
    pose proof (currentSessionId_under_session rest) as Hc.
    unfold currentSessionId in Hc.
    replace (startsWith ("/session/" ++ rest) "/session/") with true in Hc by reflexivity.
    congruence.
  - intros [rest [-> ->]]. apply currentSessionId_under_session.
Qed.

(** X17: following the link of a list item highlights that item: on
    the pathname that is the item's link, and on every pathname below it, the
    session is the current one, provided its id has no slash.  A session whose
    id has a slash is never highlighted on its own link. *)
Theorem link_highlights_own_item (session : SessionItem) :
  isActive session (currentSessionId (Some (href session))) = free_of "/" (id session) /\
  (forall below,
     free_of "/" (id session) = true ->
     isActive session
       (currentSessionId (Some (href session ++ "/" ++ below)%string)) = true).
Proof.
  unfold href. split.
  - rewrite currentSessionId_under_session. cbn [isActive].
    destruct (free_of "/" (id session)) eqn:Hfree.
    + rewrite (beforeFirst_free _ _ Hfree). apply String.eqb_refl.
    + apply String.eqb_neq. intros Heq.
      pose proof (free_of_beforeFirst "/" (id session)) as H.
      rewrite <- Heq in H. congruence.
  - intros below Hfree.
    replace ((("/session/" ++ id session) ++ "/" ++ below)%string)
      with ("/session/" ++ (id session ++ String "/" below))%string
      by (cbn; reflexivity).
    rewrite currentSessionId_under_session, (beforeFirst_app _ _ _ Hfree).
    cbn [isActive]. apply String.eqb_refl.
Qed.

Lemma NoDup_map_filter (f : SessionItem -> bool) (l : list SessionItem) :
  NoDup (map id l) -> NoDup (map id (filter f l)).
Proof.
  induction l as [|x l IH]; [trivial|]. cbn [map filter].
  intros H. apply NoDup_cons_iff in H. destruct H as [Hx Hl].
  destruct (f x); [|now apply IH].
  cbn [map]. constructor; [|now apply IH].
  intros Hin. apply Hx. apply in_map_iff in Hin. destruct Hin as [y [Hy Hin]].
  apply filter_In in Hin. apply in_map_iff. exists y. tauto.
Qed.

Lemma one_with_id (c : string) (l : list SessionItem) :
  NoDup (map id l) -> (length (filter (fun s => (id s =? c)%string) l) <= 1)%nat.
Proof.
  induction l as [|x l IH]; [cbn; lia|]. cbn [map filter].
  intros H. apply NoDup_cons_iff in H. destruct H as [Hx Hl].
  destruct (String.eqb_spec (id x) c) as [Hc|Hc]; [|now apply IH].
  replace (filter (fun s => (id s =? c)%string) l) with (@nil SessionItem); [cbn; lia|].
  symmetry. clear IH Hl. induction l as [|y l IHl]; [reflexivity|].
  cbn [filter]. cbn [map] in Hx.
  destruct (String.eqb_spec (id y) c) as [Hy|Hy].
  - exfalso. apply Hx. left. congruence.
  - apply IHl. intros H. apply Hx. now right.
Qed.

Section RenderFacts.
Variable toLowerCase : string -> string.
Variable isInactiveSession : Z -> bool.
Variable formatRelativeTime : Z -> string.

Let view := sessionList toLowerCase isInactiveSession formatRelativeTime.

(** The items of the list, once there is something to list. *)
Lemma items_sessionList (st : ListState) (q : string) (pathname : option string) :
  loading st = false -> sessions st <> [] ->
  items (view st q pathname) =
  map (fun session =>
         SessionListItem formatRelativeTime session
           (isActive session (currentSessionId pathname)))
      (shown toLowerCase isInactiveSession (sessions st) q).
Proof.
  intros Hl Hs. unfold view, sessionList, shown. rewrite Hl.
  destruct (sessions st) as [|x l] eqn:Hst; [contradiction|].
  cbn [length Nat.eqb]. cbv zeta.
  destruct (inactiveSessions (reconcile toLowerCase isInactiveSession (x :: l) q)) as [|y ys];
    cbn [length Nat.ltb Nat.leb items].
  - now rewrite app_nil_r.
  - now rewrite map_app.
Qed.

Lemma items_without_list (st : ListState) (q : string) (pathname : option string) :
  loading st = true \/ sessions st = [] -> items (view st q pathname) = [].
Proof.
  unfold view, sessionList. intros [-> | ->]; [reflexivity|].
  now destruct (loading st).
Qed.

End RenderFacts.

Section RenderTheorems.
Variable toLowerCase : string -> string.
Variable isInactiveSession : Z -> bool.
Variable formatRelativeTime : Z -> string.

Let view := sessionList toLowerCase isInactiveSession formatRelativeTime.
Let item (current : option string) (session : SessionItem) : ItemView :=
  SessionListItem formatRelativeTime session (isActive session current).

Lemma highlighted_items (current : option string) (l : list SessionItem) :
  length (filter highlighted (map (item current) l)) =
  length (filter (fun session => isActive session current) l).
Proof.
  induction l as [|x l IH]; [reflexivity|]. cbn [map filter].
  unfold item at 1, SessionListItem. cbn [highlighted].
  destruct (isActive x current); cbn [length]; now rewrite IH.
Qed.

Lemma shown_ids_distinct (l : list SessionItem) (q : string) :
  NoDup (map id l) -> NoDup (map id (shown toLowerCase isInactiveSession l q)).
Proof.
  intros H. apply (NoDup_map_filter (filterCallback toLowerCase q)) in H.
  eapply Permutation_NoDup; [|exact H].
  apply Permutation_map. symmetry. apply (output_perm toLowerCase isInactiveSession l q).
Qed.

(** X18: when the sessions have distinct ids, at most one item of the
    list is highlighted, whatever the query and the pathname are. *)
Theorem at_most_one_highlight
  (st : ListState) (q : string) (pathname : option string)
  (Hdistinct : NoDup (map id (sessions st))) :
  (length (filter highlighted (items (view st q pathname))) <= 1)%nat.
Proof.
  destruct (loading st) eqn:Hl;
    [unfold view; rewrite items_without_list by (now left); cbn; lia|].
  destruct (sessions st) as [|x l] eqn:Hs;
    [unfold view; rewrite items_without_list by (now right); cbn; lia|].
  unfold view. rewrite items_sessionList by (rewrite ?Hs; congruence).
  rewrite Hs. fold (item (currentSessionId pathname)). rewrite highlighted_items.
  destruct (currentSessionId pathname) as [c|]; cbn [isActive].
  - apply one_with_id. apply shown_ids_distinct. exact Hdistinct.
  - induction (shown toLowerCase isInactiveSession (x :: l) q); cbn; [lia | assumption].
Qed.

(** X19: what is listed is what matches: unless the spinner is shown,
    the links and titles of the rendered items are, up to order, the links and
    display titles of the sessions that pass the filter, each once. *)
Theorem rendered_items_are_the_matches
  (st : ListState) (q : string) (pathname : option string) :
  Permutation
    (map (fun i => (link i, heading i)) (items (view st q pathname)))
    (if loading st then []
     else map (fun session => (href session, displayTitle session))
              (filter (filterCallback toLowerCase q) (sessions st))).
Proof.
  destruct (loading st) eqn:Hl;
    [unfold view; rewrite items_without_list by (now left); reflexivity|].
  destruct (sessions st) as [|x l] eqn:Hs;
    [unfold view; rewrite items_without_list by (now right); reflexivity|].
  unfold view. rewrite items_sessionList by (rewrite ?Hs; congruence).
  rewrite Hs, map_map. cbn [link heading SessionListItem].
  apply Permutation_map. apply (output_perm toLowerCase isInactiveSession (x :: l) q).
Qed.

(** X20: the message "No sessions yet" depends on the fetched
    collection, not on the query: when there are sessions and the query
    matches none of them, the list area is rendered with no item and no
    divider, and without the message. *)
Theorem unmatched_query_shows_blank_list
  (st : ListState) (q : string) (pathname : option string)
  (Hloaded : loading st = false)
  (Hsome : sessions st <> [])
  (Hnone : forall session, In session (sessions st) -> filterCallback toLowerCase q session = false) :
  view st q pathname = Lists [] None.
Proof.
  unfold view, sessionList, reconcile. rewrite Hloaded.
  destruct (sessions st) as [|x l] eqn:Hs; [contradiction|].
  cbn [length Nat.eqb]. cbv zeta.
  replace (filter (filterCallback toLowerCase q) (x :: l)) with (@nil SessionItem); [reflexivity|].
  symmetry. clear Hs Hsome. induction (x :: l) as [|y ys IH]; [reflexivity|].
  cbn [filter]. rewrite (Hnone y) by now left.
  apply IH. intros session Hin. apply Hnone. now right.
Qed.

End RenderTheorems.

(** X20 for one session of octo/cat and the query zzz. *)
Lemma unmatched_query_shows_blank_list_witness :
  sessionList asciiToLowerCase (fun _ => false) (fun _ => "now")
    (mkListState [mkSessionItem "s1" None "octo" "cat" "running" 1 (Some 2)] false)
    "zzz" None = Lists [] None.
Proof.
  apply (unmatched_query_shows_blank_list asciiToLowerCase (fun _ => false) (fun _ => "now")
           (mkListState [mkSessionItem "s1" None "octo" "cat" "running" 1 (Some 2)] false)
           "zzz" None).
  - reflexivity.
  - discriminate.
  - intros session [<- | []]. reflexivity.
Defined.

(** X18 for two sessions with the ids s1 and s2. *)
Lemma at_most_one_highlight_witness :
  Nat.le
    (length (filter highlighted
       (items (sessionList asciiToLowerCase (fun _ => false) (fun _ => "now")
          (mkListState [mkSessionItem "s1" None "octo" "cat" "running" 1 (Some 2);
                        mkSessionItem "s2" None "octo" "dog" "running" 1 (Some 3)] false)
          "" (Some "/session/s2")))))
    1.
Proof.
  apply (at_most_one_highlight asciiToLowerCase (fun _ => false) (fun _ => "now")
           (mkListState [mkSessionItem "s1" None "octo" "cat" "running" 1 (Some 2);
                         mkSessionItem "s2" None "octo" "dog" "running" 1 (Some 3)] false)
           "" (Some "/session/s2")).
  cbn. repeat constructor; cbn; intuition discriminate.
Defined.

(** *** The filter as the user types *)

Lemma filterCallback_case
  (toLowerCase : string -> string) (q q' : string) (session : SessionItem) :
  (forall s, toLowerCase s = "" <-> s = "") ->
  toLowerCase q = toLowerCase q' ->
  filterCallback toLowerCase q session = filterCallback toLowerCase q' session.
Proof.
  intros Hempty H. unfold filterCallback. rewrite H.
  replace (truthy_string q') with (truthy_string q); [reflexivity|].
  destruct (truthy_string q) eqn:Hq; symmetry.
  - apply truthy_string_true. apply truthy_string_true in Hq.
    intros ->. apply Hq. apply Hempty. rewrite H. now apply Hempty.
  - apply truthy_string_false. apply truthy_string_false in Hq. subst q.
    apply Hempty. rewrite <- H. now apply Hempty.
Qed.

(** X21: the case of the query does not matter: two queries that are
    equal once lowercased give the same active list and the same inactive
    list.  Of the platform's case mapping this uses that it maps the empty
    string, and no other, to the empty string. *)
Theorem query_case_is_ignored
  (toLowerCase : string -> string)
  (isInactiveSession : Z -> bool) (l : list SessionItem) (q q' : string)
  (Hempty : forall s, toLowerCase s = "" <-> s = "")
  (Hsame : toLowerCase q = toLowerCase q') :
  reconcile toLowerCase isInactiveSession l q =
  reconcile toLowerCase isInactiveSession l q'.
Proof.
  unfold reconcile.
  rewrite (filter_ext (filterCallback toLowerCase q) (filterCallback toLowerCase q'));
    [reflexivity|].
  intros session. now apply filterCallback_case.
Qed.

(** X21 for the queries CAT and cat. *)
Lemma query_case_is_ignored_witness :
  reconcile asciiToLowerCase (fun _ => false)
    [mkSessionItem "s1" None "octo" "cat" "running" 1 (Some 2)] "CAT" =
  reconcile asciiToLowerCase (fun _ => false)
    [mkSessionItem "s1" None "octo" "cat" "running" 1 (Some 2)] "cat".
Proof.
  apply (query_case_is_ignored asciiToLowerCase (fun _ => false)
           [mkSessionItem "s1" None "octo" "cat" "running" 1 (Some 2)] "CAT" "cat").
  - exact asciiToLowerCase_empty.
  - reflexivity.
Defined.

Lemma caseInsensitiveSubstring_part
  (toLowerCase : string -> string) (before q after t : string) :
  toLowerCase (before ++ q ++ after)%string =
    (toLowerCase before ++ toLowerCase q ++ toLowerCase after)%string ->
  caseInsensitiveSubstring toLowerCase (before ++ q ++ after) t ->
  caseInsensitiveSubstring toLowerCase q t.
Proof.
  intros Hparts [pre [post H]]. rewrite Hparts in H.
  exists (pre ++ toLowerCase before)%string, (toLowerCase after ++ post)%string.
  now rewrite H, !string_app_assoc.
Qed.

(** X22: typing more never brings a session back, as long as the case
    mapping treats the query piece by piece: when the lowercase form of a
    query is the lowercase forms of its parts put together (so for every query
    of ASCII characters; not where a capital sigma falls under the final-sigma
    rule), a session that is shown for the query is shown for each such part
    of it. *)
Theorem longer_query_narrows
  (toLowerCase : string -> string)
  (isInactiveSession : Z -> bool) (l : list SessionItem)
  (before q after : string) (session : SessionItem)
  (Hparts : toLowerCase (before ++ q ++ after)%string =
            (toLowerCase before ++ toLowerCase q ++ toLowerCase after)%string)
  (Hshown : In session (shown toLowerCase isInactiveSession l (before ++ q ++ after))) :
  In session (shown toLowerCase isInactiveSession l q).
Proof.
  unfold shown in *.
  apply (Permutation_in _ (output_perm toLowerCase isInactiveSession l _)) in Hshown.
  apply (Permutation_in _
           (Permutation_sym (output_perm toLowerCase isInactiveSession l q))).
  apply filter_In in Hshown. destruct Hshown as [Hin Hmatch].
  apply filter_In. split; [exact Hin|].
  apply filterCallback_spec. apply filterCallback_spec in Hmatch.
  destruct Hmatch as [Hempty | [[t [Ht Hsub]] | Hsub]].
  - left. apply string_app_empty in Hempty. destruct Hempty as [_ Hempty].
    now apply string_app_empty in Hempty.
  - right; left. exists t. split; [exact Ht|].
    now apply (caseInsensitiveSubstring_part toLowerCase before q after).
  - right; right. now apply (caseInsensitiveSubstring_part toLowerCase before q after).
Qed.

(** X22 for the query octo/c and its part to/. *)
Lemma longer_query_narrows_witness :
  In (mkSessionItem "s1" None "octo" "cat" "running" 1 (Some 2))
     (shown asciiToLowerCase (fun _ => false)
        [mkSessionItem "s1" None "octo" "cat" "running" 1 (Some 2)] "to/").
Proof.
  apply (longer_query_narrows asciiToLowerCase (fun _ => false)
           [mkSessionItem "s1" None "octo" "cat" "running" 1 (Some 2)]
           "oc" "to/" "c").
  - reflexivity.
  - cbn. left. reflexivity.
Defined.

(** *** [fetchSessions] *)

(** Every run of [fetchSessions], by how the request and the reading of
    its body settle. *)
Lemma afterFetch_cases (fetch : string -> outcome SessionsReply) (st : ListState) :
  afterFetch fetch st =
  let asked := [FetchSessions "/api/sessions"] in
  let failed cause :=
    mkListWorld (mkListState (sessions st) false)
      (asked ++ [ConsoleError "Failed to fetch sessions:" cause]) in
  match fetch "/api/sessions" with
  | Rejected cause => failed cause
  | Resolved res =>
      if SessionSidebar.ok res
      then match SessionSidebar.json res with
           | Rejected cause => failed cause
           | Resolved DataNull =>
               failed (Thrown "TypeError: Cannot read properties of null")
           | Resolved (DataObject found) =>
               mkListWorld (mkListState (stored found) false) asked
           end
      else mkListWorld (mkListState (sessions st) false) asked
  end.
Proof.
  unfold afterFetch, fetchSessions, tryFinally, tryCatch, bind, record, setLoading,
    setSessions, effect, await, ret.
  cbn beta iota.
  destruct (fetch "/api/sessions") as [res|cause]; [|reflexivity].
  destruct (SessionSidebar.ok res); [|reflexivity].
  destruct (SessionSidebar.json res) as [[|found]|cause]; reflexivity.
Qed.

(** X23: [fetchSessions] never throws and always ends with the loading
    flag down, from whatever state it starts and however the request settles;
    so the list area does not show the spinner afterwards. *)
Theorem fetchSessions_settles
  (fetch : string -> outcome SessionsReply) (w : ListWorld) :
  fst (fetchSessions fetch w) = Resolved tt /\
  loading (listState (snd (fetchSessions fetch w))) = false /\
  (forall toLowerCase isInactiveSession formatRelativeTime q pathname,
     sessionList toLowerCase isInactiveSession formatRelativeTime
       (listState (snd (fetchSessions fetch w))) q pathname <> Spinner).
Proof.
  assert (H : fst (fetchSessions fetch w) = Resolved tt /\
              loading (listState (snd (fetchSessions fetch w))) = false).
  { unfold fetchSessions, tryFinally, tryCatch, bind, record, setLoading,
      setSessions, effect, await, ret.
    cbn beta iota.
    destruct (fetch "/api/sessions") as [res|cause]; [|split; reflexivity].
    destruct (SessionSidebar.ok res); [|split; reflexivity].
    destruct (SessionSidebar.json res) as [[|found]|cause]; split; reflexivity. }
  destruct H as [Hr Hl]. split; [exact Hr|]. split; [exact Hl|].
  intros toLowerCase isInactiveSession formatRelativeTime q pathname.
  unfold sessionList. rewrite Hl.
  destruct (length (sessions (listState (snd (fetchSessions fetch w)))) =? 0)%nat;
    discriminate.
Qed.

(** X24: the stored list changes only through an ok reply whose body
    could be read: after [fetchSessions] the list is either the one from
    before, or the sessions member of an ok reply, taken whole (nothing of the
    old list is merged in), and empty when the reply has no such member. *)
Theorem fetchSessions_replaces_or_keeps
  (fetch : string -> outcome SessionsReply) (st : ListState) :
  sessions (listState (afterFetch fetch st)) = sessions st \/
  exists res found,
    fetch "/api/sessions" = Resolved res /\
    SessionSidebar.ok res = true /\
    SessionSidebar.json res = Resolved (DataObject found) /\
    sessions (listState (afterFetch fetch st)) = stored found.
Proof.
  rewrite afterFetch_cases. cbv zeta.
  destruct (fetch "/api/sessions") as [res|cause]; [|now left].
  destruct (SessionSidebar.ok res) eqn:Hok; [|now left].
  destruct (SessionSidebar.json res) as [[|found]|cause] eqn:Hjson; try now left.
  right. now exists res, found.
Qed.

(** X25: a reply that is not ok is dropped in silence: the list stays
    as it was and nothing is written to the console.
    A request that throws, or an ok reply whose body cannot be read or is null,
    keeps the list as well and is logged under "Failed to fetch sessions:". *)
Theorem fetchSessions_failures
  (fetch : string -> outcome SessionsReply) (st : ListState) :
  (forall res, fetch "/api/sessions" = Resolved res -> SessionSidebar.ok res = false ->
     afterFetch fetch st =
     mkListWorld (mkListState (sessions st) false) [FetchSessions "/api/sessions"]) /\
  (forall cause,
     fetch "/api/sessions" = Rejected cause \/
     (exists res, fetch "/api/sessions" = Resolved res /\ SessionSidebar.ok res = true /\
                  SessionSidebar.json res = Rejected cause) ->
     afterFetch fetch st =
     mkListWorld (mkListState (sessions st) false)
       [FetchSessions "/api/sessions"; ConsoleError "Failed to fetch sessions:" cause]) /\
  (forall res, fetch "/api/sessions" = Resolved res -> SessionSidebar.ok res = true ->
     SessionSidebar.json res = Resolved DataNull ->
     sessions (listState (afterFetch fetch st)) = sessions st /\
     exists cause,
       events (afterFetch fetch st) =
       [FetchSessions "/api/sessions"; ConsoleError "Failed to fetch sessions:" cause]).
Proof.
  rewrite afterFetch_cases. cbv zeta. split; [|split].
  - intros res -> ->. reflexivity.
  - intros cause [-> | [res [-> [-> ->]]]]; reflexivity.
  - intros res -> -> ->. split; [reflexivity|]. eexists. reflexivity.
Qed.

End SidebarFacts.

(** ** The DELETE handler of the session API proxy *)
Module DeleteRouteFacts.
Import JS JSFacts DeleteRoute SpecDelete.

Section Authenticated.
Variables (env : Env) (id : string) (session : AuthSession) (token : string).
Hypothesis Hsession : getServerSession env = Resolved (Some session).
Hypothesis Htoken : accessToken session = Some token.
Hypothesis Hnonempty : token <> "".

(** With a credential the handler is the [try] block after the lookup. *)
Lemma run_authenticated :
  run env id =
  tryCatch
    (response <- call (CallControlPlaneFetch (sessionPath id) "DELETE")
                      (controlPlaneFetch env (sessionPath id) "DELETE") ;;
     if negb (ok response)
     then
       error <- await (text response) ;;
       await (NextResponse.json
                (JObject [("error", JString (or_string (Some error) "Failed to delete session"))])
                (Some (status response)))
     else
       data <- await (json response) ;;
       ret (NextResponse.mk 200 data))%async
    (fun error =>
       console_error "Failed to delete session:" error ;;
       ret (errorResponse 500 "Failed to delete session"))%async
    [CallGetServerSession].
Proof.
  unfold run, DELETE, call, bind, effect, await at 1.
  cbn beta iota. rewrite Hsession. cbn beta iota.
  cbn [accessTokenOf]. rewrite Htoken. cbn [truthy_opt_string].
  apply truthy_string_true in Hnonempty. rewrite Hnonempty. reflexivity.
Qed.

End Authenticated.

(** C3: without an access token (no session, no token in it, or an
    empty one) the handler answers 401 with the body {"error":"Unauthorized"};
    the only thing it has done is the session lookup, and the control-plane
    client was not invoked. *)
Theorem DELETE_without_credential
  (env : Env) (id : string) (session : option AuthSession)
  (Hsession : getServerSession env = Resolved session)
  (Htoken : accessTokenOf session = None \/ accessTokenOf session = Some "") :
  run env id = (Resolved (errorResponse 401 "Unauthorized"), [CallGetServerSession]) /\
  existsb isControlPlaneCall (snd (run env id)) = false.
Proof.
  assert (Hrun : run env id =
                 (Resolved (errorResponse 401 "Unauthorized"), [CallGetServerSession])).
  { unfold run, DELETE, call, bind, effect, await. cbn beta iota.
    rewrite Hsession. cbn beta iota.
    destruct Htoken as [-> | ->]; reflexivity. }
  split; [exact Hrun | now rewrite Hrun].
Qed.

(** C3 for a request with no session at all. *)
Lemma DELETE_without_credential_witness :
  run (mkEnv (Resolved None) (fun _ _ => Rejected (Thrown "unreachable"))) "42" =
  (Resolved (errorResponse 401 "Unauthorized"), [CallGetServerSession]).
Proof.
  apply (DELETE_without_credential
           (mkEnv (Resolved None) (fun _ _ => Rejected (Thrown "unreachable")))
           "42" None); [reflexivity | left; reflexivity].
Defined.

(** What [NextResponse.json] gives when it gives a response. *)
Lemma json_resolved (data : JSON) (code : Z) (r : NextResponse.t) :
  NextResponse.json data (Some code) = Resolved r -> r = NextResponse.mk code data.
Proof.
  unfold NextResponse.json.
  destruct ((200 <=? code) && (code <=? 599)); [|discriminate].
  destruct ((code =? 204) || (code =? 205) || (code =? 304)); [discriminate|].
  now intros [= <-].
Qed.

Lemma json_accepts (data : JSON) (code : Z) :
  NextResponse.json data (Some code) =
  (if NextResponse.acceptsBody code
   then Resolved (NextResponse.mk code data)
   else NextResponse.json data (Some code)) /\
  (NextResponse.acceptsBody code = false ->
   exists cause, NextResponse.json data (Some code) = Rejected cause).
Proof.
  unfold NextResponse.json, NextResponse.acceptsBody.
  destruct ((200 <=? code) && (code <=? 599)); cbn [andb].
  - destruct ((code =? 204) || (code =? 205) || (code =? 304)); cbn [negb].
    + split; [reflexivity|]. intros _. eexists. reflexivity.
    + split; [reflexivity | discriminate].
  - split; [reflexivity|]. intros _. eexists. reflexivity.
Qed.

(** C6 (amended): when the authenticated caller's control-plane response
    is not ok and its body text is [errorText], the handler answers with the
    upstream status code and the body {"error": errorText}, or with
    {"error":"Failed to delete session"} when [errorText] is empty, provided
    the upstream status is one that a response with a body may carry (within
    200..599 and none of 204, 205, 304); for any other upstream status the
    handler answers 500 with the body {"error":"Failed to delete session"}. *)
Theorem DELETE_upstream_error
  (env : Env) (id : string) (session : AuthSession) (token : string)
  (response : Response) (errorText : string)
  (Hsession : getServerSession env = Resolved (Some session))
  (Htoken : accessToken session = Some token)
  (Hnonempty : token <> "")
  (Hfetch : controlPlaneFetch env (sessionPath id) "DELETE" = Resolved response)
  (Hok : ok response = false)
  (Htext : text response = Resolved errorText) :
  fst (run env id) =
  Resolved
    (if NextResponse.acceptsBody (status response)
     then errorResponse (status response)
            (if (errorText =? "")%string then "Failed to delete session" else errorText)
     else errorResponse 500 "Failed to delete session").
Proof.
  rewrite (run_authenticated env id session token Hsession Htoken Hnonempty).
  unfold tryCatch, call, bind, effect, await. cbn beta iota.
  rewrite Hfetch. cbn beta iota. rewrite Hok. cbn [negb]. cbn beta iota.
  rewrite Htext. cbn beta iota.
  destruct (json_accepts
              (JObject [("error", JString (or_string (Some errorText) "Failed to delete session"))])
              (status response)) as [Hjson Hrefused].
  destruct (NextResponse.acceptsBody (status response)).
  - rewrite Hjson. cbn [fst].
    unfold errorResponse, or_string, truthy_string.
    destruct (errorText =? "")%string; reflexivity.
  - destruct (Hrefused eq_refl) as [cause ->]. reflexivity.
Qed.

(** C6 for an upstream 404 whose body text is not found. *)
Lemma DELETE_upstream_error_witness :
  fst (run (mkEnv (Resolved (Some (mkAuthSession (Some "token"))))
                  (fun _ _ => Resolved (mkResponse false 404 (Resolved "not found")
                                          (Rejected (Thrown "not JSON")))))
           "42") =
  Resolved (errorResponse 404 "not found").
Proof.
  apply (DELETE_upstream_error
           (mkEnv (Resolved (Some (mkAuthSession (Some "token"))))
                  (fun _ _ => Resolved (mkResponse false 404 (Resolved "not found")
                                          (Rejected (Thrown "not JSON")))))
           "42" (mkAuthSession (Some "token")) "token"
           (mkResponse false 404 (Resolved "not found") (Rejected (Thrown "not JSON")))
           "not found");
    solve [reflexivity | discriminate].
Defined.

(** C6, as stated, fails on an upstream status that a response with a
    body may not carry: for an upstream 304 with the body text not modified
    the constructor of the response throws inside the try block, and the
    handler answers 500 with the fixed body instead of relaying 304. *)
Lemma upstream_304_counterexample :
  let response :=
    mkResponse false 304 (Resolved "not modified") (Rejected (Thrown "not JSON")) in
  let env :=
    mkEnv (Resolved (Some (mkAuthSession (Some "token")))) (fun _ _ => Resolved response) in
  ok response = false /\
  fst (run env "42") = Resolved (errorResponse 500 "Failed to delete session") /\
  fst (run env "42") <> Resolved (errorResponse 304 "not modified").
Proof.
  cbv zeta. repeat split. discriminate.
Qed.

(** C9: when the control-plane call of an authenticated caller throws,
    the handler logs the exception under "Failed to delete session:" and
    answers 500 with the body {"error":"Failed to delete session"}, whatever
    was thrown. *)
Theorem DELETE_transport_exception
  (env : Env) (id : string) (session : AuthSession) (token : string) (cause : Exn)
  (Hsession : getServerSession env = Resolved (Some session))
  (Htoken : accessToken session = Some token)
  (Hnonempty : token <> "")
  (Hfetch : controlPlaneFetch env (sessionPath id) "DELETE" = Rejected cause) :
  run env id =
  (Resolved (errorResponse 500 "Failed to delete session"),
   [CallGetServerSession;
    CallControlPlaneFetch (sessionPath id) "DELETE";
    ConsoleError "Failed to delete session:" cause]).
Proof.
  rewrite (run_authenticated env id session token Hsession Htoken Hnonempty).
  unfold tryCatch, call, bind, effect, await. cbn beta iota.
  rewrite Hfetch. reflexivity.
Qed.

(** C9 for a refused connection. *)
Lemma DELETE_transport_exception_witness :
  run (mkEnv (Resolved (Some (mkAuthSession (Some "token"))))
             (fun _ _ => Rejected (Thrown "ECONNREFUSED 10.0.0.1:8787")))
      "42" =
  (Resolved (errorResponse 500 "Failed to delete session"),
   [CallGetServerSession;
    CallControlPlaneFetch "/sessions/42" "DELETE";
    ConsoleError "Failed to delete session:" (Thrown "ECONNREFUSED 10.0.0.1:8787")]).
Proof.
  apply (DELETE_transport_exception
           (mkEnv (Resolved (Some (mkAuthSession (Some "token"))))
                  (fun _ _ => Rejected (Thrown "ECONNREFUSED 10.0.0.1:8787")))
           "42" (mkAuthSession (Some "token")) "token"
           (Thrown "ECONNREFUSED 10.0.0.1:8787"));
    solve [reflexivity | discriminate].
Defined.

(** X5: a body that cannot be read ends like a failed call: when
    [response.json()] of an ok response, or [response.text()] of one that is
    not ok, throws, the handler logs the exception and answers 500 with the
    fixed body; the upstream status is not relayed. *)
Lemma DELETE_body_exception
  (env : Env) (id : string) (session : AuthSession) (token : string)
  (response : Response) (cause : Exn)
  (Hsession : getServerSession env = Resolved (Some session))
  (Htoken : accessToken session = Some token)
  (Hnonempty : token <> "")
  (Hfetch : controlPlaneFetch env (sessionPath id) "DELETE" = Resolved response)
  (Hbody : (if ok response then json response = Rejected cause
            else text response = Rejected cause)) :
  run env id =
  (Resolved (errorResponse 500 "Failed to delete session"),
   [CallGetServerSession;
    CallControlPlaneFetch (sessionPath id) "DELETE";
    ConsoleError "Failed to delete session:" cause]).
Proof.
  rewrite (run_authenticated env id session token Hsession Htoken Hnonempty).
  unfold tryCatch, call, bind, effect, await. cbn beta iota.
  rewrite Hfetch. cbn beta iota.
  destruct (ok response); cbn [negb]; cbn beta iota; rewrite Hbody; reflexivity.
Qed.


(** X5 for an upstream 502 whose body stream breaks. *)
Lemma DELETE_body_exception_witness :
  run (mkEnv (Resolved (Some (mkAuthSession (Some "token"))))
             (fun _ _ => Resolved (mkResponse false 502 (Rejected (Thrown "aborted"))
                                     (Rejected (Thrown "aborted")))))
      "42" =
  (Resolved (errorResponse 500 "Failed to delete session"),
   [CallGetServerSession;
    CallControlPlaneFetch "/sessions/42" "DELETE";
    ConsoleError "Failed to delete session:" (Thrown "aborted")]).
Proof.
  apply (DELETE_body_exception
           (mkEnv (Resolved (Some (mkAuthSession (Some "token"))))
                  (fun _ _ => Resolved (mkResponse false 502 (Rejected (Thrown "aborted"))
                                          (Rejected (Thrown "aborted")))))
           "42" (mkAuthSession (Some "token")) "token"
           (mkResponse false 502 (Rejected (Thrown "aborted")) (Rejected (Thrown "aborted")))
           (Thrown "aborted"));
    solve [reflexivity | discriminate].
Defined.


(** *** The handler over all its collaborators *)

(** Every run, by how the session lookup, the control-plane call and the
    reading of its body settle. *)
Lemma run_cases (env : Env) (id : string) :
  run env id =
  match getServerSession env with
  | Rejected e => (Rejected e, [CallGetServerSession])
  | Resolved session =>
      if truthy_opt_string (accessTokenOf session)
      then
        let called := [CallGetServerSession; CallControlPlaneFetch (sessionPath id) "DELETE"] in
        let failed cause :=
          (Resolved (errorResponse 500 "Failed to delete session"),
           called ++ [ConsoleError "Failed to delete session:" cause]) in
        match controlPlaneFetch env (sessionPath id) "DELETE" with
        | Rejected cause => failed cause
        | Resolved response =>
            if ok response
            then match json response with
                 | Resolved data => (Resolved (NextResponse.mk 200 data), called)
                 | Rejected cause => failed cause
                 end
            else match text response with
                 | Resolved errorText =>
                     match NextResponse.json
                             (JObject [("error",
                                JString (or_string (Some errorText) "Failed to delete session"))])
                             (Some (status response)) with
                     | Resolved relayed => (Resolved relayed, called)
                     | Rejected cause => failed cause
                     end
                 | Rejected cause => failed cause
                 end
        end
      else (Resolved (errorResponse 401 "Unauthorized"), [CallGetServerSession])
  end.
Proof.
  unfold run, DELETE, tryCatch, call, console_error, bind, effect, await, sessionPath.
  cbn beta iota.
  destruct (getServerSession env) as [session|e]; [|reflexivity]. cbn beta iota.
  destruct (truthy_opt_string (accessTokenOf session)); [|reflexivity].
  cbn [negb]. cbn beta iota zeta.
  destruct (controlPlaneFetch env ("/sessions/" ++ id)%string "DELETE") as [response|cause];
    [|reflexivity].
  cbn beta iota.
  destruct (ok response); cbn [negb]; cbn beta iota.
  - destruct (json response); reflexivity.
  - destruct (text response) as [errorText|cause]; [|reflexivity]. cbn beta iota.
    destruct (NextResponse.json _ (Some (status response))); reflexivity.
Qed.

(** X1: once the session lookup has settled, the handler returns a
    response, whatever the control plane does: it never throws.  The status is
    401, 500, 200, or the status of a control-plane response that is not ok. *)
Theorem DELETE_always_answers
  (env : Env) (id : string) (session : option AuthSession)
  (Hsession : getServerSession env = Resolved session) :
  exists r,
    fst (run env id) = Resolved r /\
    (NextResponse.status r = 401 \/
     NextResponse.status r = 500 \/
     NextResponse.status r = 200 \/
     exists response,
       controlPlaneFetch env (sessionPath id) "DELETE" = Resolved response /\
       ok response = false /\
       NextResponse.status r = status response).
Proof.
  rewrite run_cases, Hsession.
  destruct (truthy_opt_string (accessTokenOf session)); cbv zeta.
  - destruct (controlPlaneFetch env (sessionPath id) "DELETE") as [response|cause].
    + destruct (ok response) eqn:Hok.
      * destruct (json response); eexists; (split; [reflexivity|]); cbn; auto.
      * destruct (text response) as [errorText|cause];
          [|eexists; (split; [reflexivity|]); cbn; auto].
        destruct (NextResponse.json _ (Some (status response))) as [relayed|cause] eqn:Hjson;
          [|eexists; (split; [reflexivity|]); cbn; auto].
        apply json_resolved in Hjson. subst relayed.
        eexists. split; [reflexivity|]. cbn.
        right; right; right. now exists response.
    + eexists. split; [reflexivity|]. cbn. auto.
  - eexists. split; [reflexivity|]. cbn. auto.
Qed.

(** X1 for a control plane that answers 503 with an empty body. *)
Lemma DELETE_always_answers_witness :
  exists r,
    fst (run (mkEnv (Resolved (Some (mkAuthSession (Some "token"))))
                    (fun _ _ => Resolved (mkResponse false 503 (Resolved "")
                                            (Rejected (Thrown "not JSON")))))
             "42") = Resolved r.
Proof.
  destruct (DELETE_always_answers
              (mkEnv (Resolved (Some (mkAuthSession (Some "token"))))
                     (fun _ _ => Resolved (mkResponse false 503 (Resolved "")
                                             (Rejected (Thrown "not JSON")))))
              "42" (Some (mkAuthSession (Some "token"))) eq_refl) as [r [Hr _]].
  exists r. exact Hr.
Defined.

(** X2: when the session lookup itself throws, the handler throws the
    same value: no response is built, nothing is logged and the control plane
    is not called. *)
Theorem DELETE_lookup_exception
  (env : Env) (id : string) (cause : Exn)
  (Hsession : getServerSession env = Rejected cause) :
  run env id = (Rejected cause, [CallGetServerSession]).
Proof.
  now rewrite run_cases, Hsession.
Qed.

(** X2 for a session store that is down. *)
Lemma DELETE_lookup_exception_witness :
  run (mkEnv (Rejected (Thrown "session store down"))
             (fun _ _ => Rejected (Thrown "unreachable"))) "42" =
  (Rejected (Thrown "session store down"), [CallGetServerSession]).
Proof.
  apply (DELETE_lookup_exception
           (mkEnv (Rejected (Thrown "session store down"))
                  (fun _ _ => Rejected (Thrown "unreachable")))
           "42" (Thrown "session store down")).
  reflexivity.
Defined.

(** X3: the control-plane client is called at most once per request:
    once, with DELETE on /sessions/id, when the caller has a non-empty access
    token, and not at all otherwise. *)
Theorem DELETE_control_plane_calls (env : Env) (id : string) :
  filter isControlPlaneCall (snd (run env id)) =
  match getServerSession env with
  | Resolved session =>
      if truthy_opt_string (accessTokenOf session)
      then [CallControlPlaneFetch (sessionPath id) "DELETE"]
      else []
  | Rejected _ => []
  end.
Proof.
  rewrite run_cases.
  destruct (getServerSession env) as [session|e]; [|reflexivity].
  destruct (truthy_opt_string (accessTokenOf session)); [|reflexivity]. cbv zeta.
  destruct (controlPlaneFetch env (sessionPath id) "DELETE") as [response|cause];
    [|reflexivity].
  destruct (ok response); [destruct (json response); reflexivity|].
  destruct (text response) as [errorText|cause]; [|reflexivity].
  destruct (NextResponse.json _ (Some (status response))); reflexivity.
Qed.

(** X4: the handler writes to the console only on the way to its own
    500: a logged error carries the prefix "Failed to delete session:" and the
    response is then 500 with the fixed body.  An upstream error that is relayed
    is not logged. *)
Theorem DELETE_logged_means_500
  (env : Env) (id : string) (message : string) (cause : Exn)
  (Hlogged : In (ConsoleError message cause) (snd (run env id))) :
  message = "Failed to delete session:" /\
  fst (run env id) = Resolved (errorResponse 500 "Failed to delete session").
Proof.
  rewrite run_cases in *.
  destruct (getServerSession env) as [session|e];
    [|cbn in Hlogged; destruct Hlogged as [H|[]]; discriminate].
  destruct (truthy_opt_string (accessTokenOf session));
    [|cbn in Hlogged; destruct Hlogged as [H|[]]; discriminate].
  cbv zeta in *.
  assert (Hfailed : forall c,
            In (ConsoleError message cause)
               ([CallGetServerSession; CallControlPlaneFetch (sessionPath id) "DELETE"] ++
                [ConsoleError "Failed to delete session:" c]) ->
            message = "Failed to delete session:").
  { intros c [H|[H|[H|[]]]]; try discriminate. now injection H as <- _. }
  assert (Hquiet :
            ~ In (ConsoleError message cause)
                 [CallGetServerSession; CallControlPlaneFetch (sessionPath id) "DELETE"]).
  { intros [H|[H|[]]]; discriminate. }
  destruct (controlPlaneFetch env (sessionPath id) "DELETE") as [response|c].
  - destruct (ok response).
    + destruct (json response) as [data|c]; cbn [fst snd] in *.
      * contradiction.
      * split; [now apply (Hfailed c) | reflexivity].
    + destruct (text response) as [errorText|c]; cbn [fst snd] in *.
      * destruct (NextResponse.json _ (Some (status response))) as [relayed|c];
          cbn [fst snd] in *; [contradiction|].
        split; [now apply (Hfailed c) | reflexivity].
      * split; [now apply (Hfailed c) | reflexivity].
  - cbn [fst snd] in *. split; [now apply (Hfailed c) | reflexivity].
Qed.

(** X4 for a control-plane reply whose body cannot be read. *)
Lemma DELETE_logged_means_500_witness :
  fst (run (mkEnv (Resolved (Some (mkAuthSession (Some "token"))))
                  (fun _ _ => Resolved (mkResponse false 502 (Rejected (Thrown "aborted"))
                                          (Rejected (Thrown "aborted")))))
           "42") =
  Resolved (errorResponse 500 "Failed to delete session").
Proof.
  apply (DELETE_logged_means_500
           (mkEnv (Resolved (Some (mkAuthSession (Some "token"))))
                  (fun _ _ => Resolved (mkResponse false 502 (Rejected (Thrown "aborted"))
                                          (Rejected (Thrown "aborted")))))
           "42" "Failed to delete session:" (Thrown "aborted")).
  cbn. right; right; left. reflexivity.
Defined.

End DeleteRouteFacts.

(** ** The session creation form *)
Module NewSessionFacts.
Import JS SpecStrings JSFacts NewSessionPage SpecForm.

(** With a repository selected, the handler sends exactly one request,
    whatever the reply is. *)
Lemma submit_requests (fetch : string -> RequestInit -> outcome Response) (s : State) :
  selectedRepo s <> "" ->
  requests (log (submit fetch s)) = [("/api/sessions", request s)].
Proof.
  intros Hrepo. apply truthy_string_true in Hrepo.
  unfold submit, handleSubmit, bind at 1, emit at 1, effect at 1.
  cbn beta iota. rewrite Hrepo. cbn [negb].
  unfold tryFinally, tryCatch, bind, emit, setCreating, setError, effect, await, ret.
  cbn beta iota.
  destruct (fetch "/api/sessions" (request s)) as [res|e]; [|reflexivity].
  destruct (ok res); destruct (json res) as [data|e]; try reflexivity;
    destruct data; cbn [prop]; try reflexivity; destruct (toString _); reflexivity.
Qed.

(** Whatever the reply is, the form ends idle again. *)
Lemma submit_returns_to_idle (fetch : string -> RequestInit -> outcome Response) (s : State) :
  selectedRepo s <> "" -> creating (state (submit fetch s)) = false.
Proof.
  intros Hrepo. apply truthy_string_true in Hrepo.
  unfold submit, handleSubmit, bind at 1, emit at 1, effect at 1.
  cbn beta iota. rewrite Hrepo. cbn [negb].
  unfold tryFinally, tryCatch, bind, emit, setCreating, setError, effect, await, ret.
  cbn beta iota.
  destruct (fetch "/api/sessions" (request s)) as [res|e]; [|reflexivity].
  destruct (ok res); destruct (json res) as [data|e]; try reflexivity;
    destruct data; cbn [prop]; try reflexivity; destruct (toString _); reflexivity.
Qed.

(** The members of the posted body. *)
Lemma request_members (s : State) :
  members (body (request s)) =
  [("repoOwner", JString (beforeFirst "/" (selectedRepo s)))] ++
  match afterFirst "/" (selectedRepo s) with
  | Some rest => [("repoName", JString (beforeFirst "/" rest))]
  | None => []
  end ++
  (if (title s =? "")%string then [] else [("title", JString (title s))]) ++
  [("model", JString (selectedModel s))].
Proof.
  unfold request, requestMembers, JSON_stringify. cbn [body members].
  rewrite split_first, split_second. cbn [stringify_members].
  unfold or_undefined, truthy_string.
  destruct (afterFirst "/" (selectedRepo s)); destruct (title s =? "")%string; reflexivity.
Qed.

Lemma request_shape (s : State) :
  request s = snd (postOf (members (body (request s)))).
Proof.
  reflexivity.
Qed.

(** C4: submitting with no repository selected sets the validation
    message and does nothing else: the only event is [preventDefault], no
    request is sent, and the handler returns normally. *)
Theorem submit_without_repository
  (fetch : string -> RequestInit -> outcome Response) (s : State)
  (Hrepo : selectedRepo s = "") :
  handleSubmit fetch s (mkWorld s []) =
    (Resolved tt,
     mkWorld (mkState (creating s) (selectedRepo s) (title s) (selectedModel s)
                (JString "Please select a repository"))
             [PreventDefault]) /\
  requests (log (submit fetch s)) = [].
Proof.
  apply truthy_string_false in Hrepo.
  unfold submit, handleSubmit, bind, emit, setError, effect.
  cbn beta iota. rewrite Hrepo. split; reflexivity.
Qed.

(** C4 for the form as it is first rendered. *)
Lemma submit_without_repository_witness :
  requests (log (submit (fun _ _ => Rejected (Thrown "unreachable")) initialState)) = [].
Proof.
  apply (submit_without_repository
           (fun _ _ => Rejected (Thrown "unreachable")) initialState).
  reflexivity.
Defined.

(** C7 (amended): with a repository value selected, the handler posts one
    request to /api/sessions whose body has, in this order, repoOwner (the
    text before the first slash, all of the value when it has none),
    repoName (the text between the first slash and the next one, or the end;
    left out when the value has no slash), title (left out when it is empty)
    and model (the selected model).  For a value owner/name with no slash in
    owner or name these are owner and name.  The selected model is
    claude-haiku-4-5 until the user changes it. *)
Theorem submit_request_body
  (fetch : string -> RequestInit -> outcome Response) (s : State)
  (Hrepo : selectedRepo s <> "") :
  requests (log (submit fetch s)) =
    [postOf
       ([("repoOwner", JString (beforeFirst "/" (selectedRepo s)))] ++
        match afterFirst "/" (selectedRepo s) with
        | Some rest => [("repoName", JString (beforeFirst "/" rest))]
        | None => []
        end ++
        (if (title s =? "")%string then [] else [("title", JString (title s))]) ++
        [("model", JString (selectedModel s))])] /\
  (forall owner name,
     free_of "/" owner = true -> free_of "/" name = true ->
     selectedRepo s = (owner ++ "/" ++ name)%string ->
     beforeFirst "/" (selectedRepo s) = owner /\
     option_map (beforeFirst "/") (afterFirst "/" (selectedRepo s)) = Some name /\
     requests (log (submit fetch s)) = [postOf (specMembers s)]) /\
  (forall repo t,
     selectedModel (setTitle t (setSelectedRepo repo initialState)) = "claude-haiku-4-5").
Proof.
  split; [|split].
  - rewrite (submit_requests fetch s Hrepo), <- request_members.
    unfold postOf. now rewrite request_shape at 1.
  - intros owner name Ho Hn Hv.
    rewrite (submit_requests fetch s Hrepo), request_shape, request_members.
    unfold specMembers, specOwner, specName. rewrite Hv. cbn [append].
    rewrite (beforeFirst_app "/" owner name Ho), (afterFirst_app "/" owner name Ho).
    cbn [option_map]. now rewrite (beforeFirst_free "/" name Hn).
  - reflexivity.
Qed.

(** C7 (amended) for octo/cat with a title, the model untouched. *)
Lemma submit_request_body_witness :
  requests (log (submit (fun _ _ => Rejected (Thrown "offline"))
                   (setTitle "Add login" (setSelectedRepo "octo/cat" initialState)))) =
  [postOf [("repoOwner", JString "octo"); ("repoName", JString "cat");
           ("title", JString "Add login"); ("model", JString "claude-haiku-4-5")]].
Proof.
  apply (submit_request_body (fun _ _ => Rejected (Thrown "offline"))
           (setTitle "Add login" (setSelectedRepo "octo/cat" initialState))).
  discriminate.
Defined.

(** C7, as stated, fails on a value with a second slash: the text after
    the first slash of a/b/c is b/c, the posted repoName is b.  On a value
    with no slash no repoName is posted at all. *)
Lemma second_slash_counterexample :
  specName "a/b/c" = Some "b/c" /\
  requests (log (submit (fun _ _ => Rejected (Thrown "offline"))
                   (setSelectedRepo "a/b/c" initialState))) <>
  [postOf (specMembers (setSelectedRepo "a/b/c" initialState))] /\
  requests (log (submit (fun _ _ => Rejected (Thrown "offline"))
                   (setSelectedRepo "a/b/c" initialState))) =
  [postOf [("repoOwner", JString "a"); ("repoName", JString "b");
           ("model", JString "claude-haiku-4-5")]] /\
  requests (log (submit (fun _ _ => Rejected (Thrown "offline"))
                   (setSelectedRepo "abc" initialState))) =
  [postOf [("repoOwner", JString "abc"); ("model", JString "claude-haiku-4-5")]].
Proof.
  repeat split. discriminate.
Qed.



(** *** The handler over every reply *)

(** Every submission, by how the request, the reading of its body and the
    member access settle. *)
Lemma submit_cases (fetch : string -> RequestInit -> outcome Response) (s : State) :
  submit fetch s =
  if truthy_string (selectedRepo s)
  then
    let failed := mkWorld (idleWith s genericError) (sent s) in
    match fetch "/api/sessions" (request s) with
    | Rejected _ => failed
    | Resolved res =>
        match json res with
        | Rejected _ => failed
        | Resolved data =>
            if ok res
            then match prop data "sessionId" with
                 | Rejected _ => failed
                 | Resolved sessionId =>
                     match toString sessionId with
                     | Rejected _ => failed
                     | Resolved printed =>
                         mkWorld (idleWith s (JString ""))
                           (sent s ++ [RouterPush ("/session/" ++ printed)])
                     end
                 end
            else match prop data "error" with
                 | Rejected _ => failed
                 | Resolved err => mkWorld (idleWith s (or_value err genericError)) (sent s)
                 end
        end
    end
  else
    mkWorld (mkState (creating s) (selectedRepo s) (title s) (selectedModel s)
               (JString "Please select a repository"))
            [PreventDefault].
Proof.
  unfold submit, handleSubmit, bind at 1, emit at 1, effect at 1. cbn beta iota.
  destruct (truthy_string (selectedRepo s)); cbn [negb]; [|reflexivity].
  unfold tryFinally, tryCatch, bind, emit, setCreating, setError, effect, await, ret.
  cbn beta iota.
  destruct (fetch "/api/sessions" (request s)) as [res|e]; [|reflexivity].
  destruct (ok res); destruct (json res) as [data|e]; try reflexivity;
    destruct data; cbn [prop]; try reflexivity; destruct (toString _); reflexivity.
Qed.

(** X7: [handleSubmit] never throws, whatever world it starts in and
    however the request settles: every exception of the request, of the
    reading of the reply and of the member access ends in the error cell. *)
Theorem handleSubmit_never_throws
  (fetch : string -> RequestInit -> outcome Response) (s : State) (w : World) :
  fst (handleSubmit fetch s w) = Resolved tt.
Proof.
  unfold handleSubmit, bind at 1, emit at 1, effect at 1. cbn beta iota.
  destruct (truthy_string (selectedRepo s)); cbn [negb]; [|reflexivity].
  unfold tryFinally, tryCatch, bind, emit, setCreating, setError, effect, await, ret.
  cbn beta iota.
  destruct (fetch "/api/sessions" (request s)) as [res|e]; [|reflexivity].
  destruct (ok res); destruct (json res) as [data|e]; try reflexivity;
    destruct data; cbn [prop]; try reflexivity; destruct (toString _); reflexivity.
Qed.

(** The inputs of the form after a submission from its own render. *)
Lemma submit_inputs (fetch : string -> RequestInit -> outcome Response) (s : State) :
  selectedRepo (state (submit fetch s)) = selectedRepo s /\
  title (state (submit fetch s)) = title s /\
  selectedModel (state (submit fetch s)) = selectedModel s.
Proof.
  rewrite submit_cases.
  destruct (truthy_string (selectedRepo s)); [|repeat split]. cbv zeta.
  destruct (fetch "/api/sessions" (request s)) as [res|e]; [|repeat split].
  destruct (json res) as [data|e]; [|repeat split].
  destruct (ok res);
    [destruct (prop data "sessionId") as [sessionId|]; [destruct (toString sessionId)|]
    | destruct (prop data "error")]; repeat split.
Qed.

(** X8: a submission never touches the inputs of the form: the selected
    repository, the title and the selected model are after it what they were
    before, whatever the reply, also when the handler belongs to an older
    render than the state it runs against. *)
Theorem submit_keeps_inputs
  (fetch : string -> RequestInit -> outcome Response) (s : State) (w : World) :
  let after := state (snd (handleSubmit fetch s w)) in
  selectedRepo after = selectedRepo (state w) /\
  title after = title (state w) /\
  selectedModel after = selectedModel (state w).
Proof.
  cbv zeta.
  unfold handleSubmit, bind at 1, emit at 1, effect at 1. cbn beta iota.
  destruct (truthy_string (selectedRepo s)); cbn [negb]; [|repeat split].
  unfold tryFinally, tryCatch, bind, emit, setCreating, setError, effect, await, ret.
  cbn beta iota.
  destruct (fetch "/api/sessions" (request s)) as [res|e]; [|repeat split].
  destruct (ok res); destruct (json res) as [data|e]; try (repeat split; fail);
    destruct data; cbn [prop]; try (repeat split; fail); destruct (toString _); repeat split.
Qed.

(** X9: when the reply is ok and its body parses to an object, the
    handler navigates to /session/ followed by the sessionId member as a
    template literal prints it, leaves the error cell empty and ends idle.  A
    string member gives /session/id; a reply without the member gives
    /session/undefined.  When the member cannot be printed (an object with a
    member toString of its own), the handler does not navigate and shows
    "Failed to create session". *)
Theorem submit_ok_navigates
  (fetch : string -> RequestInit -> outcome Response) (s : State)
  (res : Response) (fields : list (string * JSON))
  (Hrepo : selectedRepo s <> "")
  (Hfetch : fetch "/api/sessions" (request s) = Resolved res)
  (Hok : ok res = true)
  (Hjson : json res = Resolved (JObject fields)) :
  (forall printed, toString (lookup "sessionId" fields) = Resolved printed ->
     submit fetch s =
     mkWorld (idleWith s (JString ""))
       (sent s ++ [RouterPush ("/session/" ++ printed)])) /\
  (forall sessionId, lookup "sessionId" fields = Some (JString sessionId) ->
     log (submit fetch s) = sent s ++ [RouterPush ("/session/" ++ sessionId)]) /\
  (lookup "sessionId" fields = None ->
     log (submit fetch s) = sent s ++ [RouterPush "/session/undefined"]) /\
  (forall cause, toString (lookup "sessionId" fields) = Rejected cause ->
     submit fetch s = mkWorld (idleWith s genericError) (sent s)).
Proof.
  apply truthy_string_true in Hrepo.
  assert (Hsubmit : submit fetch s =
            match toString (lookup "sessionId" fields) with
            | Rejected _ => mkWorld (idleWith s genericError) (sent s)
            | Resolved printed =>
                mkWorld (idleWith s (JString ""))
                  (sent s ++ [RouterPush ("/session/" ++ printed)])
            end).
  { rewrite submit_cases, Hrepo. cbv zeta. rewrite Hfetch, Hjson, Hok. reflexivity. }
  rewrite Hsubmit. repeat split.
  - intros printed ->. reflexivity.
  - intros sessionId ->. reflexivity.
  - intros ->. reflexivity.
  - intros cause ->. reflexivity.
Qed.

(** X9 for a reply that carries the session id abc. *)
Lemma submit_ok_navigates_witness :
  log (submit (fun _ _ => Resolved (mkResponse true 200 (Rejected (Thrown "used"))
                                      (Resolved (JObject [("sessionId", JString "abc")]))))
         (setSelectedRepo "octo/cat" initialState)) =
  sent (setSelectedRepo "octo/cat" initialState) ++ [RouterPush "/session/abc"].
Proof.
  apply (submit_ok_navigates
           (fun _ _ => Resolved (mkResponse true 200 (Rejected (Thrown "used"))
                                   (Resolved (JObject [("sessionId", JString "abc")]))))
           (setSelectedRepo "octo/cat" initialState)
           (mkResponse true 200 (Rejected (Thrown "used"))
              (Resolved (JObject [("sessionId", JString "abc")])))
           [("sessionId", JString "abc")]); solve [reflexivity | discriminate].
Defined.

(** X10: when the reply is not ok and its body parses to an object, the
    error cell takes the error member of the body if that is truthy and the
    message "Failed to create session" otherwise (missing, null, empty); the
    handler does not navigate and ends idle. *)
Theorem submit_refused_shows_error
  (fetch : string -> RequestInit -> outcome Response) (s : State)
  (res : Response) (fields : list (string * JSON))
  (Hrepo : selectedRepo s <> "")
  (Hfetch : fetch "/api/sessions" (request s) = Resolved res)
  (Hok : ok res = false)
  (Hjson : json res = Resolved (JObject fields)) :
  submit fetch s =
    mkWorld (idleWith s (or_value (lookup "error" fields) genericError)) (sent s) /\
  (forall message, message <> "" -> lookup "error" fields = Some (JString message) ->
     error (state (submit fetch s)) = JString message) /\
  (lookup "error" fields = None \/ lookup "error" fields = Some JNull \/
   lookup "error" fields = Some (JString "") ->
     error (state (submit fetch s)) = genericError).
Proof.
  apply truthy_string_true in Hrepo.
  assert (Hsubmit : submit fetch s =
            mkWorld (idleWith s (or_value (lookup "error" fields) genericError)) (sent s)).
  { rewrite submit_cases, Hrepo. cbv zeta. rewrite Hfetch, Hjson, Hok. reflexivity. }
  split; [exact Hsubmit|]. rewrite Hsubmit. cbn [state idleWith error].
  split.
  - intros message Hm ->. apply truthy_string_true in Hm.
    unfold or_value, truthy. now rewrite Hm.
  - intros [-> | [-> | ->]]; reflexivity.
Qed.

(** X10 for a 403 whose body names the reason. *)
Lemma submit_refused_shows_error_witness :
  error (state (submit
    (fun _ _ => Resolved (mkResponse false 403 (Rejected (Thrown "used"))
                            (Resolved (JObject [("error", JString "No access")]))))
    (setSelectedRepo "octo/cat" initialState))) = JString "No access".
Proof.
  apply (submit_refused_shows_error
           (fun _ _ => Resolved (mkResponse false 403 (Rejected (Thrown "used"))
                                   (Resolved (JObject [("error", JString "No access")]))))
           (setSelectedRepo "octo/cat" initialState)
           (mkResponse false 403 (Rejected (Thrown "used"))
              (Resolved (JObject [("error", JString "No access")])))
           [("error", JString "No access")]); solve [reflexivity | discriminate].
Defined.

(** X11: when the request throws, or the body of the reply cannot be
    parsed, or parses to null, the error cell takes the message "Failed to
    create session", whether the reply was ok or not; the handler does not
    navigate and ends idle. *)
Theorem submit_exception_shows_generic
  (fetch : string -> RequestInit -> outcome Response) (s : State)
  (Hrepo : selectedRepo s <> "")
  (Hbroken :
     (exists cause, fetch "/api/sessions" (request s) = Rejected cause) \/
     (exists res, fetch "/api/sessions" (request s) = Resolved res /\
        ((exists cause, json res = Rejected cause) \/ json res = Resolved JNull))) :
  submit fetch s = mkWorld (idleWith s genericError) (sent s).
Proof.
  apply truthy_string_true in Hrepo.
  rewrite submit_cases, Hrepo. cbv zeta.
  destruct Hbroken as [[cause ->] | [res [-> [[cause ->] | ->]]]]; try reflexivity.
  destruct (ok res); reflexivity.
Qed.

(** X11 for an ok reply whose body is null. *)
Lemma submit_exception_shows_generic_witness :
  submit (fun _ _ => Resolved (mkResponse true 200 (Rejected (Thrown "used")) (Resolved JNull)))
    (setSelectedRepo "octo/cat" initialState) =
  mkWorld (idleWith (setSelectedRepo "octo/cat" initialState) genericError)
    (sent (setSelectedRepo "octo/cat" initialState)).
Proof.
  apply (submit_exception_shows_generic
           (fun _ _ => Resolved (mkResponse true 200 (Rejected (Thrown "used"))
                                   (Resolved JNull)))
           (setSelectedRepo "octo/cat" initialState)); [discriminate|].
  right. exists (mkResponse true 200 (Rejected (Thrown "used")) (Resolved JNull)).
  split; [reflexivity | right; reflexivity].
Defined.

(** X12: the handler navigates only after an ok reply whose body it
    could read: a navigation among the events means that the request resolved
    to an ok response and that the target is /session/ followed by the
    sessionId member of its body as a template literal prints it. *)
Theorem navigation_needs_ok_reply
  (fetch : string -> RequestInit -> outcome Response) (s : State) (href : string)
  (Hpushed : In (RouterPush href) (log (submit fetch s))) :
  exists res data sessionId printed,
    fetch "/api/sessions" (request s) = Resolved res /\
    ok res = true /\
    json res = Resolved data /\
    prop data "sessionId" = Resolved sessionId /\
    toString sessionId = Resolved printed /\
    href = ("/session/" ++ printed)%string.
Proof.
  rewrite submit_cases in Hpushed.
  assert (Hquiet : ~ In (RouterPush href) (sent s)).
  { intros [H|[H|[]]]; discriminate. }
  destruct (truthy_string (selectedRepo s));
    [|destruct Hpushed as [H|[]]; discriminate].
  cbv zeta in Hpushed.
  destruct (fetch "/api/sessions" (request s)) as [res|e]; [|contradiction].
  destruct (json res) as [data|e] eqn:Hjson; [|contradiction].
  destruct (ok res) eqn:Hok.
  - destruct (prop data "sessionId") as [sessionId|e] eqn:Hprop; [|contradiction].
    destruct (toString sessionId) as [printed|e] eqn:Hprinted; [|contradiction].
    cbn [log] in Hpushed. apply in_app_or in Hpushed.
    destruct Hpushed as [H | [H | []]]; [contradiction|].
    injection H as <-. now exists res, data, sessionId, printed.
  - destruct (prop data "error"); contradiction.
Qed.

(** X12 for a reply that carries the session id abc. *)
Lemma navigation_needs_ok_reply_witness :
  exists res,
    (fun _ _ => Resolved (mkResponse true 200 (Rejected (Thrown "used"))
                            (Resolved (JObject [("sessionId", JString "abc")]))))
      "/api/sessions" (request (setSelectedRepo "octo/cat" initialState)) = Resolved res /\
    ok res = true.
Proof.
  destruct (navigation_needs_ok_reply
              (fun _ _ => Resolved (mkResponse true 200 (Rejected (Thrown "used"))
                                      (Resolved (JObject [("sessionId", JString "abc")]))))
              (setSelectedRepo "octo/cat" initialState) "/session/abc")
    as [res [data [sessionId [printed [Hres [Hok _]]]]]].
  - cbn. right; right; left. reflexivity.
  - exists res. split; [exact Hres | exact Hok].
Defined.

(** X13: with a repository selected, every submission leaves the form
    ready for the next one: the submit button is enabled again, and submitting
    again posts the same request once more, whatever the two replies were. *)
Theorem resubmission_repeats_request
  (first second : string -> RequestInit -> outcome Response) (s : State)
  (Hrepo : selectedRepo s <> "") :
  submitDisabled (state (submit first s)) = false /\
  requests (log (submit second (state (submit first s)))) =
    [("/api/sessions", request s)].
Proof.
  destruct (submit_inputs first s) as [Hr [Ht Hm]].
  pose proof (submit_returns_to_idle first s Hrepo) as Hidle.
  split.
  - unfold submitDisabled. rewrite Hidle, Hr.
    apply truthy_string_true in Hrepo. now rewrite Hrepo.
  - rewrite submit_requests by now rewrite Hr.
    unfold request, requestMembers. now rewrite Hr, Ht, Hm.
Qed.

(** X13 for a first reply that failed and a second that succeeds. *)
Lemma resubmission_repeats_request_witness :
  submitDisabled
    (state (submit (fun _ _ => Rejected (Thrown "offline"))
              (setSelectedRepo "octo/cat" initialState))) = false.
Proof.
  apply (resubmission_repeats_request
           (fun _ _ => Rejected (Thrown "offline"))
           (fun _ _ => Resolved (mkResponse true 200 (Rejected (Thrown "used"))
                                   (Resolved (JObject [("sessionId", JString "abc")]))))
           (setSelectedRepo "octo/cat" initialState)).
  discriminate.
Defined.

(** *** [fetchRepos] and the repository select *)

Lemma fetchRepos_cases (fetch : string -> outcome ReposReply) (st : RepoState) :
  snd (fetchRepos fetch (mkRepoWorld st [])) =
  let asked := [FetchRepos "/api/repos"] in
  let failed cause :=
    mkRepoWorld (mkRepoState (repos st) false)
      (asked ++ [ConsoleError "Failed to fetch repos:" cause]) in
  match fetch "/api/repos" with
  | Rejected cause => failed cause
  | Resolved res =>
      if repos_ok res
      then match repos_json res with
           | Rejected cause => failed cause
           | Resolved ReposNull =>
               failed (Thrown "TypeError: Cannot read properties of null")
           | Resolved (ReposObject found) =>
               mkRepoWorld (mkRepoState (storedRepos found) false) asked
           end
      else mkRepoWorld (mkRepoState (repos st) false) asked
  end.
Proof.
  unfold fetchRepos, tryFinally, tryCatch, bind, record, setLoading, setRepos,
    effect, await, ret.
  cbn beta iota.
  destruct (fetch "/api/repos") as [res|cause]; [|reflexivity].
  destruct (repos_ok res); [|reflexivity].
  destruct (repos_json res) as [[|found]|cause]; reflexivity.
Qed.

(** X14: [fetchRepos] never throws and always ends with the loading
    flag down, so that the page then shows the spinner only while the
    authentication status is loading; the stored repositories are afterwards
    either the ones from before or the repos member of an ok reply (empty
    when the reply has none), and a reply that is not ok is dropped without a
    word on the console. *)
Theorem fetchRepos_settles
  (fetch : string -> outcome ReposReply) (st : RepoState) :
  let after := snd (fetchRepos fetch (mkRepoWorld st [])) in
  fst (fetchRepos fetch (mkRepoWorld st [])) = Resolved tt /\
  loading (repoState after) = false /\
  (forall status, showsSpinner status (repoState after) = (status =? "loading")%string) /\
  (repos (repoState after) = repos st \/
   exists res found,
     fetch "/api/repos" = Resolved res /\ repos_ok res = true /\
     repos_json res = Resolved (ReposObject found) /\
     repos (repoState after) = storedRepos found) /\
  (forall res, fetch "/api/repos" = Resolved res -> repos_ok res = false ->
     after = mkRepoWorld (mkRepoState (repos st) false) [FetchRepos "/api/repos"]).
Proof.
  cbv zeta. split.
  { unfold fetchRepos, tryFinally, tryCatch, bind, record, setLoading, setRepos,
      effect, await, ret.
    cbn beta iota.
    destruct (fetch "/api/repos") as [res|cause]; [|reflexivity].
    destruct (repos_ok res); [|reflexivity].
    destruct (repos_json res) as [[|found]|cause]; reflexivity. }
  rewrite fetchRepos_cases. cbv zeta.
  destruct (fetch "/api/repos") as [res|cause].
  - destruct (repos_ok res) eqn:Hok.
    + destruct (repos_json res) as [[|found]|cause] eqn:Hjson;
        (split; [reflexivity|]);
        (split; [intros status; unfold showsSpinner; apply orb_false_r|]);
        (split; [|intros r Hr; injection Hr as <-; congruence]);
        try (now left).
      right. now exists res, found.
    + split; [reflexivity|].
      split; [intros status; unfold showsSpinner; apply orb_false_r|].
      split; [now left | reflexivity].
  - split; [reflexivity|].
    split; [intros status; unfold showsSpinner; apply orb_false_r|].
    split; [now left | discriminate].
Qed.

(** X15: choosing a listed repository posts that repository: when the
    listed repositories are named owner/name and the selected value is one of
    the options of the select other than the placeholder, the one request that
    goes out carries the owner and the name of a listed repository with that
    full name, followed by the title (if any) and the model. *)
Theorem chosen_repository_is_posted
  (fetch : string -> RequestInit -> outcome Response) (st : RepoState) (s : State)
  (Hnamed : forall r, In r (repos st) -> wellNamed r)
  (Hchosen : In (selectedRepo s) (repoOptions st))
  (Hrepo : selectedRepo s <> "") :
  exists r,
    In r (repos st) /\
    fullName r = selectedRepo s /\
    requests (log (submit fetch s)) =
      [postOf ([("repoOwner", JString (owner r)); ("repoName", JString (name r))] ++
               (if (title s =? "")%string then [] else [("title", JString (title s))]) ++
               [("model", JString (selectedModel s))])].
Proof.
  destruct Hchosen as [Hempty | Hin]; [congruence|].
  apply in_map_iff in Hin. destruct Hin as [r [Hfull Hin]].
  exists r. split; [exact Hin|]. split; [exact Hfull|].
  destruct (Hnamed r Hin) as [Hname [Ho Hn]].
  rewrite (submit_requests fetch s Hrepo), request_shape, request_members.
  rewrite <- Hfull, Hname. cbn [append].
  rewrite (beforeFirst_app "/" _ _ Ho), (afterFirst_app "/" _ _ Ho).
  now rewrite (beforeFirst_free "/" _ Hn).
Qed.

(** X15 for the one listed repository octo/cat. *)
Lemma chosen_repository_is_posted_witness :
  exists r,
    In r [mkRepo 7 "octo/cat" "octo" "cat" None false] /\
    requests (log (submit (fun _ _ => Rejected (Thrown "offline"))
                     (setSelectedRepo "octo/cat" initialState))) =
      [postOf [("repoOwner", JString (owner r)); ("repoName", JString (name r));
               ("model", JString "claude-haiku-4-5")]].
Proof.
  destruct (chosen_repository_is_posted
              (fun _ _ => Rejected (Thrown "offline"))
              (mkRepoState [mkRepo 7 "octo/cat" "octo" "cat" None false] false)
              (setSelectedRepo "octo/cat" initialState))
    as [r [Hin [_ Hreq]]].
  - intros r [<- | []]. repeat split.
  - right; left. reflexivity.
  - discriminate.
  - exists r. split; [exact Hin | exact Hreq].
Defined.

End NewSessionFacts.

(** ** The deploy script *)
Module DeployFacts.
Import DeployScript SpecDeploy.

(** Every run of the script, by what the host answers. *)
Lemma deploy_cases (h : Host) :
  deploy h =
  match getenv h "HOME", getenv h "APP_NAME" with
  | Some _, Some app =>
      match getenv h "DEPLOY_PATH" with
      | None => (1, [Echo ("Deploying Modal app: " ++ app)])
      | Some path =>
          match getenv h "DEPLOY_MODULE" with
          | None => (1, [Echo ("Deploying Modal app: " ++ app); Echo ("Deploy path: " ++ path)])
          | Some module =>
              if isEmpty (expandOrEmpty h "MODAL_TOKEN_ID")
              then (1, banner app path module ++
                       [Echo "Error: MODAL_TOKEN_ID environment variable is not set"])
              else if isEmpty (expandOrEmpty h "MODAL_TOKEN_SECRET")
              then (1, banner app path module ++
                       [Echo "Error: MODAL_TOKEN_SECRET environment variable is not set"])
              else if cd h path
              then
                let args :=
                  if (module =? "deploy")%string then ["deploy"; "deploy.py"]
                  else if (module =? "src")%string then ["deploy"; "-m"; "src"]
                  else ["deploy"; module] in
                if modal h args =? 0
                then (0, banner app path module ++ [Cd path; Modal args; successLine app])
                else (1, banner app path module ++
                         [Cd path; Modal args;
                          Echo ("Error: Modal deployment failed for " ++ app)])
              else (1, banner app path module ++
                       [Echo ("Error: Failed to change directory to " ++ path)])
          end
      end
  | _, _ => (1, [])
  end.
Proof.
  unfold deploy, script, modalOrFail, expand, andThen, echo, exit, pure.
  destruct (getenv h "HOME"); [|reflexivity].
  destruct (getenv h "APP_NAME") as [app|]; [|reflexivity].
  destruct (getenv h "DEPLOY_PATH") as [path|]; [|reflexivity].
  destruct (getenv h "DEPLOY_MODULE") as [module|]; [|reflexivity].
  cbn beta iota.
  destruct (isEmpty (expandOrEmpty h "MODAL_TOKEN_ID")); [reflexivity|].
  destruct (isEmpty (expandOrEmpty h "MODAL_TOKEN_SECRET")); [reflexivity|].
  destruct (cd h path); [|reflexivity].
  cbv zeta.
  destruct (module =? "deploy")%string;
    [|destruct (module =? "src")%string];
    match goal with |- context [modal h ?a =? 0] => destruct (modal h a =? 0) end;
    reflexivity.
Qed.

Ltac deploy_paths h :=
  rewrite (deploy_cases h) in *;
  destruct (getenv h "HOME") as [?home|] eqn:?Hhome;
  [destruct (getenv h "APP_NAME") as [?app|] eqn:?Happ;
   [destruct (getenv h "DEPLOY_PATH") as [?path|] eqn:?Hpath;
    [destruct (getenv h "DEPLOY_MODULE") as [?module|] eqn:?Hmodule;
     [destruct (isEmpty (expandOrEmpty h "MODAL_TOKEN_ID")) eqn:?Hid;
      [|destruct (isEmpty (expandOrEmpty h "MODAL_TOKEN_SECRET")) eqn:?Hsecret;
        [|destruct (cd h path) eqn:?Hcd;
          [cbv zeta in *;
           match goal with
           | H : context [modal h ?a =? 0] |- _ => destruct (modal h a =? 0) eqn:?Hmodal
           | |- context [modal h ?a =? 0] => destruct (modal h a =? 0) eqn:?Hmodal
           end|]]]|]|]|]|].

(** X26: the script ends with exit code 0 or 1 and nothing else: a
    failing [modal], whatever its own status, and a variable that is not set
    both end it with 1. *)
Theorem deploy_exit_code (h : Host) :
  fst (deploy h) = 0 \/ fst (deploy h) = 1.
Proof.
  deploy_paths h; cbn [fst]; auto.
Qed.

(** X27: without a token the script deploys nothing: when
    MODAL_TOKEN_ID or MODAL_TOKEN_SECRET is not set or is empty, the exit
    code is 1 and the script has only printed lines: it has not changed
    directory and has not run [modal]. *)
Theorem deploy_without_token (h : Host)
  (Hmissing : expandOrEmpty h "MODAL_TOKEN_ID" = "" \/
              expandOrEmpty h "MODAL_TOKEN_SECRET" = "") :
  fst (deploy h) = 1 /\ forallb isEcho (snd (deploy h)) = true.
Proof.
  assert (Hempty : isEmpty (expandOrEmpty h "MODAL_TOKEN_ID") = true \/
                   isEmpty (expandOrEmpty h "MODAL_TOKEN_SECRET") = true).
  { destruct Hmissing as [-> | ->]; [left | right]; reflexivity. }
  clear Hmissing.
  deploy_paths h; try (split; reflexivity);
    destruct Hempty; congruence.
Qed.

(** X27 for a host that has every variable but the token secret. *)
Lemma deploy_without_token_witness :
  fst (deploy (mkHost (fun v => if (v =? "MODAL_TOKEN_SECRET")%string then None
                                else Some "x")
                      (fun _ => true) (fun _ => 0))) = 1.
Proof.
  apply (deploy_without_token
           (mkHost (fun v => if (v =? "MODAL_TOKEN_SECRET")%string then None else Some "x")
                   (fun _ => true) (fun _ => 0))).
  right. reflexivity.
Defined.

(** X28: [modal] is run at most once, and only with everything in
    place: a run of [modal] means that both tokens are set and not empty,
    that the script has entered DEPLOY_PATH, and that the arguments are
    deploy deploy.py for the module deploy, deploy -m src for the module src,
    and deploy followed by the module for any other module. *)
Theorem modal_run_requirements (h : Host) (args : list string)
  (Hrun : In (Modal args) (snd (deploy h))) :
  length (filter isModal (snd (deploy h))) = 1%nat /\
  expandOrEmpty h "MODAL_TOKEN_ID" <> "" /\
  expandOrEmpty h "MODAL_TOKEN_SECRET" <> "" /\
  (exists dir, getenv h "DEPLOY_PATH" = Some dir /\ cd h dir = true /\
               In (Cd dir) (snd (deploy h))) /\
  (exists module, getenv h "DEPLOY_MODULE" = Some module /\
     ((module = "deploy" /\ args = ["deploy"; "deploy.py"]) \/
      (module = "src" /\ args = ["deploy"; "-m"; "src"]) \/
      (module <> "deploy" /\ module <> "src" /\ args = ["deploy"; module]))).
Proof.
  assert (Hargs : forall module a,
            Modal args = Modal a ->
            a = (if (module =? "deploy")%string then ["deploy"; "deploy.py"]
                 else if (module =? "src")%string then ["deploy"; "-m"; "src"]
                 else ["deploy"; module]) ->
            (module = "deploy" /\ args = ["deploy"; "deploy.py"]) \/
            (module = "src" /\ args = ["deploy"; "-m"; "src"]) \/
            (module <> "deploy" /\ module <> "src" /\ args = ["deploy"; module])).
  { intros module a Heq ->. injection Heq as ->.
    destruct (String.eqb_spec module "deploy"); [now left|].
    destruct (String.eqb_spec module "src"); [now right; left|].
    now right; right. }
  deploy_paths h; cbn [snd banner List.app] in Hrun;
    repeat (destruct Hrun as [Hrun | Hrun]; [try discriminate|]); try contradiction.
  - split; [reflexivity|].
    split; [intros E; rewrite E in Hid; discriminate|].
    split; [intros E; rewrite E in Hsecret; discriminate|].
    split; [exists path; repeat split; cbn; auto|].
    exists module. split; [reflexivity|]. eapply Hargs; [symmetry; exact Hrun | reflexivity].
  - split; [reflexivity|].
    split; [intros E; rewrite E in Hid; discriminate|].
    split; [intros E; rewrite E in Hsecret; discriminate|].
    split; [exists path; repeat split; cbn; auto|].
    exists module. split; [reflexivity|]. eapply Hargs; [symmetry; exact Hrun | reflexivity].
Qed.

(** X28 for a host that deploys the module src. *)
Lemma modal_run_requirements_witness :
  length (filter isModal
            (snd (deploy (mkHost (fun v => if (v =? "DEPLOY_MODULE")%string then Some "src"
                                           else Some "x")
                                 (fun _ => true) (fun _ => 0))))) = 1%nat.
Proof.
  apply (modal_run_requirements
           (mkHost (fun v => if (v =? "DEPLOY_MODULE")%string then Some "src" else Some "x")
                   (fun _ => true) (fun _ => 0))
           ["deploy"; "-m"; "src"]).
  cbn. right; right; right; right; left. reflexivity.
Defined.

(** X29: the script reports success exactly when it succeeds: the exit
    code is 0 if and only if the last thing it did was to print "Modal app
    APP_NAME deployed successfully"; it has then printed the three banner
    lines, entered DEPLOY_PATH and run [modal] once with exit status 0. *)
Theorem deploy_success (h : Host) :
  (fst (deploy h) = 0 <->
   exists app, getenv h "APP_NAME" = Some app /\
               last (snd (deploy h)) (Cd "") = successLine app) /\
  (fst (deploy h) = 0 ->
   exists app path module args,
     snd (deploy h) =
       banner app path module ++ [Cd path; Modal args; successLine app] /\
     modal h args = 0).
Proof.
  deploy_paths h; cbn [fst snd].
  all: split; [split|].
  all: try discriminate.
  all: try (intros [a [Ha Hl]]; exfalso; cbn in Hl; discriminate).
  all: try (intros _; reflexivity).
  - intros _. exists app. split; reflexivity.
  - intros _. exists app, path, module. eexists. split; [reflexivity|].
    now apply Z.eqb_eq.
Qed.

(** X30: a variable that the script expands is required even where it
    only serves the log: when HOME, APP_NAME, DEPLOY_PATH or DEPLOY_MODULE
    is not set, the script ends with 1 before it looks at the tokens, and has
    only printed lines, at most two. *)
Theorem deploy_unset_variable (h : Host) (var : string)
  (Hvar : In var ["HOME"; "APP_NAME"; "DEPLOY_PATH"; "DEPLOY_MODULE"])
  (Hunset : getenv h var = None) :
  fst (deploy h) = 1 /\
  forallb isEcho (snd (deploy h)) = true /\
  (length (snd (deploy h)) <= 2)%nat.
Proof.
  rewrite (deploy_cases h).
  destruct Hvar as [<- | [<- | [<- | [<- | []]]]]; rewrite ?Hunset.
  - repeat split; cbn; lia.
  - destruct (getenv h "HOME"); repeat split; cbn; lia.
  - destruct (getenv h "HOME"), (getenv h "APP_NAME"); repeat split; cbn; lia.
  - destruct (getenv h "HOME"), (getenv h "APP_NAME");
      try (repeat split; cbn; lia).
    destruct (getenv h "DEPLOY_PATH"); repeat split; cbn; lia.
Qed.

(** X30 for a host without APP_NAME. *)
Lemma deploy_unset_variable_witness :
  fst (deploy (mkHost (fun v => if (v =? "APP_NAME")%string then None else Some "x")
                      (fun _ => true) (fun _ => 0))) = 1.
Proof.
  apply (deploy_unset_variable
           (mkHost (fun v => if (v =? "APP_NAME")%string then None else Some "x")
                   (fun _ => true) (fun _ => 0))
           "APP_NAME").
  - right; left. reflexivity.
  - reflexivity.
Defined.

End DeployFacts.
